(** * RAG movie recommender: a shallow embedding of [src/server.ts]

    The development follows the layout of the source file: schemas,
    helpers ([joinAnswers], [movieTextForEmbedding]), the Postgres side
    (table [public.movies], [upsert], the SQL function [match_movies]) and
    the two route handlers.  External services (the embedding model, the
    reasoning model, pgvector's distance operator) and the runtime builtins
    the handlers call ([JSON.parse], [String.prototype.toLowerCase], number
    formatting) are the fields of the class [Services]: every theorem of
    the section [Properties] holds for all of them.  Scores and distances
    are rationals. *)

From Stdlib Require Import String Ascii List ZArith QArith Qabs Lia Lqa Bool.
From Stdlib Require Import DecimalString Sorted Permutation.
Import ListNotations.
Local Open Scope list_scope.
Local Open Scope string_scope.
Set Warnings "-register-all".

(** ** Exceptions

    A JavaScript computation either returns a value or throws; only the
    [message] of the thrown error is observable (the handlers report
    [e.message]). *)

Inductive result (A : Type) : Type :=
| Ok (a : A)
| Throw (message : string).
Arguments Ok {A} a.
Arguments Throw {A} message.

Definition bind {A B} (r : result A) (k : A -> result B) : result B :=
  match r with
  | Ok a => k a
  | Throw e => Throw e
  end.

Notation "x <- c ;; k" := (bind c (fun x => k))
  (at level 61, c at next level, right associativity).

(** A callback run over an array by [Array.prototype.map]: the first throw
    aborts the whole map. *)
Fixpoint map_throwing {A B} (f : A -> result B) (l : list A) : result (list B) :=
  match l with
  | [] => Ok []
  | a :: l' => b <- f a ;; bs <- map_throwing f l' ;; Ok (b :: bs)
  end.

(** ** JSON values and JavaScript objects

    Objects keep their properties in enumeration order; a property that is
    not listed reads as [undefined], which [get] renders as [None]. *)

Inductive json : Type :=
| JNull
| JBool (b : bool)
| JNum (q : Q)
| JStr (s : string)
| JArr (items : list json)
| JObj (props : list (string * json)).

Definition obj := list (string * json).

Fixpoint get (k : string) (o : obj) : option json :=
  match o with
  | [] => None
  | (k', v) :: o' => if String.eqb k k' then Some v else get k o'
  end.

Definition keys (o : obj) : list string := map fst o.

(** [{...o, k: v}]: an existing property keeps its position and takes the
    new value, a new property goes last. *)
Fixpoint spread_set (o : obj) (k : string) (v : json) : obj :=
  match o with
  | [] => [(k, v)]
  | (k', v') :: o' =>
      if String.eqb k k' then (k', v) :: o' else (k', v') :: spread_set o' k v
  end.

(** [v ?? d] on a property read. *)
Definition nullish (v : option json) (d : json) : json :=
  match v with
  | None | Some JNull => d
  | Some x => x
  end.

Definition nl : string := String (ascii_of_nat 10) EmptyString.

(** [filter(Boolean)] on an array of strings drops the empty ones. *)
Definition nonempty (s : string) : bool :=
  match s with
  | EmptyString => false
  | String _ _ => true
  end.

Definition filter_Boolean (l : list string) : list string := filter nonempty l.

(** [l.map((a, i) => f(a, i))], the index starting at [i]. *)
Fixpoint mapi_from {A B} (i : Z) (f : A -> Z -> B) (l : list A) : list B :=
  match l with
  | [] => []
  | a :: l' => f a i :: mapi_from (i + 1) f l'
  end.

(** [Array.prototype.slice(start, end)] with its treatment of negative and
    out-of-range indices. *)
Definition slice {A} (l : list A) (start end_ : Z) : list A :=
  let len := Z.of_nat (length l) in
  let k := if (start <? 0)%Z then Z.max (len + start) 0 else Z.min start len in
  let final := if (end_ <? 0)%Z then Z.max (len + end_) 0 else Z.min end_ len in
  firstn (Z.to_nat (final - k)) (skipn (Z.to_nat k) l).

(** An integral JavaScript number ([Number.isInteger]) and its value. *)
Definition Number_isInteger (q : Q) : bool :=
  (Qnum q mod Zpos (Qden q) =? 0)%Z.

Definition int_value (q : Q) : Z := (Qnum q / Zpos (Qden q))%Z.

(** ** JSON.stringify on JSON trees

    Strings are quoted with the escapes of the ECMAScript [QuoteJSONString]
    operation; numbers are printed by the runtime ([Number::toString]),
    which is a parameter. *)

Definition hex_digit (n : N) : ascii :=
  if (n <? 10)%N then ascii_of_N (48 + n) else ascii_of_N (87 + n).

Definition quote_char (c : ascii) : string :=
  let n := N_of_ascii c in
  let bs := String (ascii_of_nat 92) EmptyString in
  if (n =? 34)%N then bs ++ String c EmptyString
  else if (n =? 92)%N then bs ++ bs
  else if (n =? 8)%N then bs ++ "b"
  else if (n =? 12)%N then bs ++ "f"
  else if (n =? 10)%N then bs ++ "n"
  else if (n =? 13)%N then bs ++ "r"
  else if (n =? 9)%N then bs ++ "t"
  else if (n <? 32)%N then
    bs ++ "u00" ++ String (hex_digit (n / 16)) (String (hex_digit (n mod 16)) EmptyString)
  else String c EmptyString.

Fixpoint quote_chars (s : string) : string :=
  match s with
  | EmptyString => EmptyString
  | String c s' => quote_char c ++ quote_chars s'
  end.

Definition QuoteJSONString (s : string) : string :=
  let dq := String (ascii_of_nat 34) EmptyString in
  dq ++ quote_chars s ++ dq.

Section Stringify.
Variable Number_toString : Q -> string.

Fixpoint JSON_stringify (v : json) : string :=
  match v with
  | JNull => "null"
  | JBool true => "true"
  | JBool false => "false"
  | JNum q => Number_toString q
  | JStr s => QuoteJSONString s
  | JArr items => "[" ++ String.concat "," (map JSON_stringify items) ++ "]"
  | JObj props =>
      "{" ++ String.concat ","
               (map (fun kv => QuoteJSONString (fst kv) ++ ":" ++ JSON_stringify (snd kv))
                    props) ++ "}"
  end.
End Stringify.

(** ** Schemas (zod)

    [safeParse] either yields the typed data or fails; the handlers answer
    400 on failure.  [z.object] drops every key the schema does not name,
    so the typed data carries exactly the declared fields. *)

Definition obind {A B} (o : option A) (k : A -> option B) : option B :=
  match o with
  | Some a => k a
  | None => None
  end.

Notation "x <-? c ;; k" := (obind c (fun x => k))
  (at level 61, c at next level, right associativity).

Definition z_string (v : json) : option string :=
  match v with
  | JStr s => Some s
  | _ => None
  end.

Fixpoint z_strings (l : list json) : option (list string) :=
  match l with
  | [] => Some []
  | v :: l' => s <-? z_string v ;; ss <-? z_strings l' ;; Some (s :: ss)
  end.

Definition z_array_string (v : json) : option (list string) :=
  match v with
  | JArr items => z_strings items
  | _ => None
  end.

Definition z_number (v : json) : option Q :=
  match v with
  | JNum q => Some q
  | _ => None
  end.

Definition z_number_int (v : json) : option Z :=
  q <-? z_number v ;; if Number_isInteger q then Some (int_value q) else None.

Definition z_boolean (v : json) : option bool :=
  match v with
  | JBool b => Some b
  | _ => None
  end.

Definition z_record_any (v : json) : option obj :=
  match v with
  | JObj props => Some props
  | _ => None
  end.

(** [.optional()] accepts a missing key; [.default(d)] replaces it. *)
Definition z_optional {A} (p : json -> option A) (v : option json) : option (option A) :=
  match v with
  | None => Some None
  | Some x => a <-? p x ;; Some (Some a)
  end.

Definition z_default {A} (p : json -> option A) (d : A) (v : option json) : option A :=
  match v with
  | None => Some d
  | Some x => p x
  end.

Definition z_required {A} (p : json -> option A) (v : option json) : option A :=
  x <-? v ;; p x.

Definition z_check {A} (ok : A -> bool) (a : A) : option A :=
  if ok a then Some a else None.

Record Movie : Type := {
  m_title : string;
  m_year : option Z;
  m_genres : list string;
  m_cast : list string;
  m_plot : string;
  m_metadata : obj
}.

Definition MovieSchema (v : json) : option Movie :=
  match v with
  | JObj o =>
      title <-? z_required z_string (get "title" o) ;;
      year <-? z_optional z_number_int (get "year" o) ;;
      genres <-? z_default z_array_string [] (get "genres" o) ;;
      cast <-? z_default z_array_string [] (get "cast" o) ;;
      plot <-? z_default z_string EmptyString (get "plot" o) ;;
      metadata <-? z_default z_record_any [] (get "metadata" o) ;;
      Some {| m_title := title; m_year := year; m_genres := genres;
              m_cast := cast; m_plot := plot; m_metadata := metadata |}
  | _ => None
  end.

Fixpoint MovieSchemas (l : list json) : option (list Movie) :=
  match l with
  | [] => Some []
  | v :: l' => m <-? MovieSchema v ;; ms <-? MovieSchemas l' ;; Some (m :: ms)
  end.

Definition IngestBodySchema (body : json) : option (list Movie) :=
  match body with
  | JObj o =>
      match get "movies" o with
      | Some (JArr items) =>
          movies <-? MovieSchemas items ;;
          z_check (fun l => (1 <=? length l)%nat) movies
      | _ => None
      end
  | _ => None
  end.

Record RecommendBody : Type := {
  answers : list string;
  topN : option Z;
  offset : option Z;
  threshold : option Q;
  rerank : option bool
}.

Definition between (lo hi : Z) (n : Z) : bool := ((lo <=? n) && (n <=? hi))%Z.

Definition RecommendBodySchema (body : json) : option RecommendBody :=
  match body with
  | JObj o =>
      a <-? z_required z_array_string (get "answers" o) ;;
      a <-? z_check (fun l => (1 <=? length l)%nat && (length l <=? 10)%nat) a ;;
      n <-? z_optional (fun v => i <-? z_number_int v ;; z_check (between 1 50) i)
                       (get "topN" o) ;;
      k <-? z_optional (fun v => i <-? z_number_int v ;; z_check (between 0 500) i)
                       (get "offset" o) ;;
      t <-? z_optional
              (fun v => q <-? z_number v ;;
                        z_check (fun q => Qle_bool 0 q && Qle_bool q 1) q)
              (get "threshold" o) ;;
      r <-? z_optional z_boolean (get "rerank" o) ;;
      Some {| answers := a; topN := n; offset := k; threshold := t; rerank := r |}
  | _ => None
  end.

(** ** The server *)

Definition uuid := nat.

Definition json_of_uuid (u : uuid) : json :=
  JStr (NilZero.string_of_uint (Nat.to_uint u)).

Definition json_of_year (y : option Z) : json :=
  match y with
  | Some n => JNum (inject_Z n)
  | None => JNull
  end.

Inductive Response : Type :=
| R200 (body : json)
| R400
| R500 (message : string).

(** Embedding vectors are arrays of numbers ([number[]] in the source). *)
Definition Vec := list Q.

(** *** The store: table [public.movies]

    [id] defaults to [gen_random_uuid()]; the table carries the rank of
    the next generated identifier. *)

Record MovieRecord : Type := {
  id : uuid;
  title : string;
  year : option Z;
  genres : list string;
  cast : list string;
  plot : string;
  metadata : obj;
  embedding : Vec
}.

Record Table : Type := {
  records : list MovieRecord;
  next_uuid : uuid
}.

(** The row object the ingest handler builds.  The handler never gives it
    an [id] (the assignment [row.id = m.id] is commented out in the
    source), so [row_id] is [None] on every row it sends; the store's
    upsert reads the property all the same. *)
Record Row : Type := {
  row_id : option uuid;
  row_title : string;
  row_year : option Z;
  row_genres : list string;
  row_cast : list string;
  row_plot : string;
  row_metadata : obj;
  row_embedding : Vec
}.

Definition record_of_row (i : uuid) (r : Row) : MovieRecord :=
  {| id := i; title := row_title r; year := row_year r;
     genres := row_genres r; cast := row_cast r; plot := row_plot r;
     metadata := row_metadata r; embedding := row_embedding r |}.

Definition has_id (i : uuid) (recs : list MovieRecord) : bool :=
  existsb (fun m => Nat.eqb (id m) i) recs.

Definition replace_record (new : MovieRecord) (recs : list MovieRecord)
  : list MovieRecord :=
  map (fun m => if Nat.eqb (id m) (id new) then new else m) recs.

(** [insert ... on conflict (id) do update], one row. *)
Definition upsert_row (t : Table) (r : Row) : Table * MovieRecord :=
  match row_id r with
  | Some i =>
      let new := record_of_row i r in
      if has_id i (records t)
      then ({| records := replace_record new (records t);
               next_uuid := next_uuid t |}, new)
      else ({| records := (records t ++ [new])%list;
               next_uuid := next_uuid t |}, new)
  | None =>
      let new := record_of_row (next_uuid t) r in
      ({| records := (records t ++ [new])%list;
          next_uuid := S (next_uuid t) |}, new)
  end.

(** [upsert(rows).select('id, title')]. *)
Fixpoint upsert (t : Table) (rows : list Row) : Table * list (uuid * string) :=
  match rows with
  | [] => (t, [])
  | r :: rows' =>
      let (t1, new) := upsert_row t r in
      let (t2, data) := upsert t1 rows' in
      (t2, (id new, title new) :: data)
  end.

(** ** Services and runtime builtins

    What the handlers call and do not define: the embedding model, the
    reasoning model, pgvector's cosine distance [<=>], the failures of a
    store call (in transit or in the database), number formatting,
    [String.prototype.toLowerCase], [JSON.parse] ([None]: it throws), and
    the two defaults read from the process environment. *)
Class Services : Type := {
  embed_content : string -> result Vec;
  generateContent : string -> result string;
  cosine_distance : Vec -> Vec -> Q;
  upsert_error : list Row -> option string;
  rpc_error : Vec -> Z -> Q -> option string;
  Number_toString : Q -> string;
  toLowerCase : string -> string;
  JSON_parse : string -> option json;
  DEFAULT_TOP_N : Z;
  DEFAULT_SIM_THRESHOLD : Q
}.

(** *** Effects

    A handler runs in a world: the table of the store and the calls made
    so far to the outside (embedding model, reasoning model, store), in
    order.  A computation returns or throws, and leaves a world. *)

Inductive Call : Type :=
| CallEmbed (text : string)
| CallGenerate (prompt : string)
| CallUpsert (rows : list Row)
| CallMatchMovies (query_embedding : Vec) (match_count : Z) (sim_threshold : Q).

Record World : Type := {
  table : Table;
  calls : list Call
}.

Definition is_store_call (c : Call) : bool :=
  match c with
  | CallUpsert _ | CallMatchMovies _ _ _ => true
  | CallEmbed _ | CallGenerate _ => false
  end.

Definition M (A : Type) : Type := World -> result A * World.

Definition ret {A} (a : A) : M A := fun w => (Ok a, w).

Definition await {A} (r : result A) : M A := fun w => (r, w).

Definition mbind {A B} (c : M A) (k : A -> M B) : M B :=
  fun w =>
    match c w with
    | (Ok a, w') => k a w'
    | (Throw e, w') => (Throw e, w')
    end.

Notation "x <~ c ;; k" := (mbind c (fun x => k))
  (at level 61, c at next level, right associativity).

Definition record_call (c : Call) (w : World) : World :=
  {| table := table w; calls := (calls w ++ [c])%list |}.

Section Server.
Context {env : Services}.

(** *** Helpers *)

Definition joinAnswers (answers : list string) : string :=
  String.concat nl
    ("You are building a movie preference profile from questionnaire answers."
     :: "Summarize consistent tastes implicitly. Answers:"
     :: mapi_from 0
          (fun a i => "Q" ++ Number_toString (inject_Z (i + 1)) ++ ": " ++ a)
          answers).

(** [m.year ? ... : ''] tests a number for truthiness: an absent year and
    the year 0 both take the else branch.  [m.metadata ? ... : ''] tests
    an object, and every object is truthy, the empty one included. *)
Definition number_truthy (n : Z) : bool := negb (n =? 0)%Z.

Definition object_truthy (o : obj) : bool := true.

Definition movieTextForEmbedding (m : Movie) : string :=
  String.concat nl
    (filter_Boolean
       [ "Title: " ++ m_title m;
         match m_year m with
         | Some n => if number_truthy n
                     then "Year: " ++ Number_toString (inject_Z n)
                     else EmptyString
         | None => EmptyString
         end;
         if (0 <? length (m_genres m))%nat
         then "Genres: " ++ String.concat ", " (m_genres m)
         else EmptyString;
         if (0 <? length (m_cast m))%nat
         then "Cast: " ++ String.concat ", " (m_cast m)
         else EmptyString;
         if nonempty (m_plot m) then "Plot: " ++ m_plot m else EmptyString;
         if object_truthy (m_metadata m)
         then "Metadata: " ++ JSON_stringify Number_toString (JObj (m_metadata m))
         else EmptyString ]).

Definition embed (text : string) : M Vec :=
  fun w => (embed_content text, record_call (CallEmbed text) w).

(** [gpt.generateContent(prompt)] and the text of its response. *)
Definition generate_text (prompt : string) : M string :=
  fun w => (generateContent prompt, record_call (CallGenerate prompt) w).

(** *** The SQL function [public.match_movies]

    [<=>] is pgvector's cosine distance.  Rows at equal distance come out
    in table order; SQL leaves their order open, and nothing below
    depends on it.  A result row has the columns of [returns table];
    [year] is the one column the ingest handler may leave null. *)

Record Match : Type := {
  r_id : uuid;
  r_title : string;
  r_year : option Z;
  r_genres : list string;
  r_plot : string;
  r_metadata : obj;
  r_score : Q
}.

Definition distance (query_embedding : Vec) (m : MovieRecord) : Q :=
  cosine_distance (embedding m) query_embedding.

Definition similarity (query_embedding : Vec) (m : MovieRecord) : Q :=
  1 - distance query_embedding m.

Definition select_match (query_embedding : Vec) (m : MovieRecord) : Match :=
  {| r_id := id m; r_title := title m; r_year := year m;
     r_genres := genres m; r_plot := plot m; r_metadata := metadata m;
     r_score := similarity query_embedding m |}.

Definition where_threshold (query_embedding : Vec) (sim_threshold : Q)
           (m : MovieRecord) : bool :=
  Qle_bool sim_threshold (similarity query_embedding m).

Fixpoint insert_by_distance (q : Vec) (m : MovieRecord) (l : list MovieRecord)
  : list MovieRecord :=
  match l with
  | [] => [m]
  | x :: l' =>
      if Qle_bool (distance q m) (distance q x)
      then m :: x :: l'
      else x :: insert_by_distance q m l'
  end.

Fixpoint order_by_distance (q : Vec) (l : list MovieRecord) : list MovieRecord :=
  match l with
  | [] => []
  | m :: l' => insert_by_distance q m (order_by_distance q l')
  end.

Definition match_movies (t : Table) (query_embedding : Vec) (match_count : Z)
           (sim_threshold : Q) : result (list Match) :=
  if (match_count <? 0)%Z then Throw "LIMIT must not be negative"
  else
    Ok (firstn (Z.to_nat match_count)
          (map (select_match query_embedding)
             (order_by_distance query_embedding
                (filter (where_threshold query_embedding sim_threshold)
                   (records t))))).

Definition ascending_distance (q : Vec) (a b : MovieRecord) : Prop :=
  distance q a <= distance q b.

Definition descending_score (a b : Match) : Prop := r_score b <= r_score a.

(** How many rows of the table are at or above the threshold. *)
Definition available (t : Table) (query_embedding : Vec) (sim_threshold : Q) : nat :=
  length (filter (where_threshold query_embedding sim_threshold) (records t)).

(** The JSON object the client hands to the handler for one result row. *)
Definition object_of_match (r : Match) : obj :=
  [ ("id", json_of_uuid (r_id r));
    ("title", JStr (r_title r));
    ("year", json_of_year (r_year r));
    ("genres", JArr (map JStr (r_genres r)));
    ("plot", JStr (r_plot r));
    ("metadata", JObj (r_metadata r));
    ("score", JNum (r_score r)) ].

(** *** Calls to the store

    The handlers reach the store through the Supabase client only.  A
    call may fail in transit or in the database ([error] is set):
    [upsert_error] and [rpc_error] decide that. *)

Definition supabase_upsert (rows : list Row) : M (list (uuid * string)) :=
  fun w =>
    let w' := record_call (CallUpsert rows) w in
    match upsert_error rows with
    | Some e => (Throw e, w')
    | None =>
        let (t, data) := upsert (table w') rows in
        (Ok data, {| table := t; calls := calls w' |})
    end.

Definition supabase_rpc_match_movies (query_embedding : Vec) (match_count : Z)
           (sim_threshold : Q) : M (list Match) :=
  fun w =>
    let w' := record_call (CallMatchMovies query_embedding match_count sim_threshold) w in
    match rpc_error query_embedding match_count sim_threshold with
    | Some e => (Throw e, w')
    | None => (match_movies (table w') query_embedding match_count sim_threshold, w')
    end.

(** [try { ... return res.json(body) } catch (e) { return res.status(500)... }] *)
Definition respond (c : M json) : World -> Response * World :=
  fun w =>
    match c w with
    | (Ok body, w') => (R200 body, w')
    | (Throw e, w') => (R500 e, w')
    end.

(** *** POST /api/ingest/movies *)

Definition row_of_movie (m : Movie) (vector : Vec) : Row :=
  {| row_id := None;
     row_title := m_title m; row_year := m_year m;
     row_genres := m_genres m; row_cast := m_cast m; row_plot := m_plot m;
     row_metadata := m_metadata m; row_embedding := vector |}.

(** The [for (const m of movies)] loop: embeddings are requested one
    record at a time and [rows] grows by one row per record. *)
Fixpoint embed_rows (movies : list Movie) (rows : list Row) : M (list Row) :=
  match movies with
  | [] => ret rows
  | m :: rest =>
      let content := movieTextForEmbedding m in
      vector <~ embed content ;;
      embed_rows rest (rows ++ [row_of_movie m vector])%list
  end.

Definition ingest_movies (req_body : json) : World -> Response * World :=
  match IngestBodySchema req_body with
  | None => fun w => (R400, w)
  | Some movies =>
      respond
        (rows <~ embed_rows movies [] ;;
         data <~ supabase_upsert rows ;;
         ret (JObj [ ("inserted", JNum (inject_Z (Z.of_nat (length data))));
                     ("ids", JArr (map (fun d => json_of_uuid (fst d)) data)) ]))
  end.

(** *** POST /api/recommend *)

(** The projection of the branch without rerank. *)
Definition project (r : Match) : json :=
  JObj [ ("id", json_of_uuid (r_id r));
         ("title", JStr (r_title r));
         ("year", json_of_year (r_year r));
         ("genres", JArr (map JStr (r_genres r)));
         ("score", JNum (r_score r));
         ("why", nullish (get "why" (object_of_match r)) JNull);
         ("metadata", JObj (r_metadata r)) ].

Definition listForLLM (sliced : list Match) : string :=
  String.concat nl
    (mapi_from 0
       (fun r i =>
          Number_toString (inject_Z (i + 1)) ++ ". " ++ r_title r ++ " ("
          ++ match r_year r with
             | Some n => Number_toString (inject_Z n)
             | None => "null"
             end
          ++ ") | genres=" ++ String.concat ", " (r_genres r))
       sliced).

Definition rerankPrompt (profile : string) (sliced : list Match) : string :=
  String.concat nl
    [ "Rank movies 1..N for best match to the given preference profile.";
      "Respond ONLY as JSON array of {title, reason} in best-to-worst order.";
      EmptyString;
      "Preference profile (from answers):" ++ nl ++ profile;
      EmptyString;
      "Candidates:" ++ nl ++ listForLLM sliced ].

(** [let reranked = []; try { reranked = JSON.parse(text || '[]') } catch {}] *)
Definition parse_reranked (text : string) : json :=
  match JSON_parse (if nonempty text then text else "[]") with
  | Some v => v
  | None => JArr []
  end.

(** [x.title?.toLowerCase()]: reading a property of [null] throws, a
    missing or null title short-circuits to [undefined], and calling
    [toLowerCase] on a title that is not a string throws. *)
Definition title_toLowerCase (x : json) : result (option string) :=
  match x with
  | JNull => Throw "Cannot read properties of null (reading 'title')"
  | JObj o =>
      match get "title" o with
      | None | Some JNull => Ok None
      | Some (JStr s) => Ok (Some (toLowerCase s))
      | Some _ => Throw "x.title?.toLowerCase is not a function"
      end
  | _ => Ok None
  end.

Definition same_title (x : json) (r : Match) : result bool :=
  lx <- title_toLowerCase x ;;
  match lx with
  | Some s => Ok (String.eqb s (toLowerCase (r_title r)))
  | None => Ok false
  end.

(** [Array.prototype.find]: the first element the predicate accepts. *)
Fixpoint Array_find (r : Match) (entries : list json) : result (option json) :=
  match entries with
  | [] => Ok None
  | x :: rest =>
      b <- same_title x r ;;
      if b then Ok (Some x) else Array_find r rest
  end.

Definition find (reranked : json) (r : Match) : result (option json) :=
  match reranked with
  | JArr entries => Array_find r entries
  | _ => Throw "reranked.find is not a function"
  end.

(** [found?.reason ?? null] *)
Definition reason_or_null (found : option json) : json :=
  match found with
  | Some (JObj o) => nullish (get "reason" o) JNull
  | _ => JNull
  end.

Definition with_reason (reranked : json) (r : Match) : result obj :=
  found <- find reranked r ;;
  Ok (spread_set (object_of_match r) "why" (reason_or_null found)).

Definition withReason (reranked : json) (sliced : list Match) : result (list obj) :=
  map_throwing (with_reason reranked) sliced.

Definition or_default {A} (v : option A) (d : A) : A :=
  match v with
  | Some a => a
  | None => d
  end.

Definition recommend (req_body : json) : World -> Response * World :=
  match RecommendBodySchema req_body with
  | None => fun w => (R400, w)
  | Some parsed =>
      let rerank := or_default (rerank parsed) false in
      let topN := or_default (topN parsed) DEFAULT_TOP_N in
      let offset := or_default (offset parsed) 0%Z in
      let threshold := or_default (threshold parsed) DEFAULT_SIM_THRESHOLD in
      respond
        (let profile := joinAnswers (answers parsed) in
         qvec <~ embed profile ;;
         data <~ supabase_rpc_match_movies qvec (topN + offset)%Z threshold ;;
         let sliced := slice data offset (offset + topN)%Z in
         if negb rerank
         then ret (JObj [ ("topN", JArr (map project sliced)) ])
         else
           text <~ generate_text (rerankPrompt profile sliced) ;;
           let reranked := parse_reranked text in
           merged <~ await (withReason reranked sliced) ;;
           ret (JObj [ ("topN", JArr (map JObj merged)) ]))
  end.

(** *** Notions the statements use *)

(** An entry whose title the merge can read: anything but [null] and
    but an object whose [title] is neither a string nor null.  Every
    [{title, reason}] object with a string title is readable. *)
Definition readable_entry (x : json) : bool :=
  match x with
  | JNull => false
  | JObj o =>
      match get "title" o with
      | None | Some JNull | Some (JStr _) => true
      | Some _ => false
      end
  | _ => true
  end.

(** The first entry carrying a given title, compared in lower case. *)
Definition has_title (lower_title : string) (x : json) : bool :=
  match x with
  | JObj o =>
      match get "title" o with
      | Some (JStr s) => String.eqb (toLowerCase s) lower_title
      | _ => false
      end
  | _ => false
  end.

Definition first_with_title (lower_title : string) (entries : list json)
  : option json :=
  List.find (has_title lower_title) entries.

(** The score a response candidate carries. *)
Definition candidate_score (c : json) : option Q :=
  match c with
  | JObj o =>
      match get "score" o with
      | Some (JNum s) => Some s
      | _ => None
      end
  | _ => None
  end.

Definition annotate (r : Match) (why : json) : obj :=
  (object_of_match r ++ [("why", why)])%list.

(** One embedding call per record, in order. *)
Definition embed_calls (movies : list Movie) : list Call :=
  map (fun m => CallEmbed (movieTextForEmbedding m)) movies.

(** How a response candidate stems from a result row, by branch. *)
Definition candidate_of (rerank : bool) (r : Match) (c : json) : Prop :=
  if rerank then exists why, c = JObj (annotate r why) else c = project r.

(** The vector the provider gives for a record, and the rows of a batch
    whose records all embed. *)
Definition vector_of (m : Movie) : Vec :=
  match embed_content (movieTextForEmbedding m) with
  | Ok v => v
  | Throw _ => []
  end.

Definition rows_for (movies : list Movie) : list Row :=
  map (fun m => row_of_movie m (vector_of m)) movies.

(** The lines [joinAnswers] joins. *)
Definition answer_line (k : nat) (a : string) : string :=
  "Q" ++ Number_toString (inject_Z (Z.of_nat k + 1)) ++ ": " ++ a.

End Server.

(** A line of the canonical text that is there only under a condition. *)
Definition optional_line (present : bool) (line : string) : list string :=
  if present then [line] else [].

(** The keys [MovieSchema] declares, and an object without a given key. *)
Definition declared_movie_key (k : string) : bool :=
  existsb (String.eqb k) ["title"; "year"; "genres"; "cast"; "plot"; "metadata"].

Definition without_key (k : string) (o : obj) : obj :=
  filter (fun kv => negb (String.eqb k (fst kv))) o.

(** The records a batch of new rows adds to a table: identifiers are
    generated in order from [next]. *)
Definition fresh_records (next : uuid) (rows : list Row) : list MovieRecord :=
  map (fun p => record_of_row (fst p) (snd p)) (combine (seq next (length rows)) rows).

(** Identifiers are unique, and all below the next one to be generated
    (the primary key of [public.movies] with its default). *)
Definition unique_ids (t : Table) : Prop :=
  NoDup (map id (records t)) /\
  Forall (fun m => (id m < next_uuid t)%nat) (records t).

(** * Reference services

    One concrete choice of every service, to run the handlers on examples:
    ASCII lower-casing, decimal printing of integral numbers, a JSON reader
    for the texts the examples use (no [\u] escapes, no fractions or
    exponents), an embedding provider that maps a text to its length and
    rejects texts over 280 characters, and a one-dimensional distance. *)

Definition toLowerCase_ascii_char (c : ascii) : ascii :=
  let n := N_of_ascii c in
  if ((65 <=? n) && (n <=? 90))%N then ascii_of_N (n + 32) else c.

Fixpoint toLowerCase_ascii (s : string) : string :=
  match s with
  | EmptyString => EmptyString
  | String c s' => String (toLowerCase_ascii_char c) (toLowerCase_ascii s')
  end.

Definition Number_toString_integral (q : Q) : string :=
  NilZero.string_of_int (Z.to_int (int_value q)).

Definition is_char (n : N) (c : ascii) : bool := (N_of_ascii c =? n)%N.

Definition is_whitespace (c : ascii) : bool :=
  is_char 32 c || is_char 9 c || is_char 10 c || is_char 13 c.

Definition is_digit (c : ascii) : bool :=
  let n := N_of_ascii c in ((48 <=? n) && (n <=? 57))%N.

Fixpoint skip_whitespace (cs : list ascii) : list ascii :=
  match cs with
  | c :: rest => if is_whitespace c then skip_whitespace rest else cs
  | [] => []
  end.

Fixpoint strip_prefix (p cs : list ascii) : option (list ascii) :=
  match p, cs with
  | [], _ => Some cs
  | a :: p', c :: cs' => if Ascii.eqb a c then strip_prefix p' cs' else None
  | _ :: _, [] => None
  end.

Definition unescape (c : ascii) : option ascii :=
  if is_char 34 c || is_char 92 c || is_char 47 c then Some c
  else if is_char 110 c then Some (ascii_of_nat 10)
  else if is_char 116 c then Some (ascii_of_nat 9)
  else if is_char 114 c then Some (ascii_of_nat 13)
  else if is_char 98 c then Some (ascii_of_nat 8)
  else if is_char 102 c then Some (ascii_of_nat 12)
  else None.

(** The characters of a string literal after its opening quote. *)
Fixpoint read_string (cs : list ascii) (acc : list ascii) : option (string * list ascii) :=
  match cs with
  | [] => None
  | c :: rest =>
      if is_char 34 c then Some (string_of_list_ascii (rev acc), rest)
      else if is_char 92 c then
        match rest with
        | e :: rest' => u <-? unescape e ;; read_string rest' (u :: acc)
        | [] => None
        end
      else if (N_of_ascii c <? 32)%N then None
      else read_string rest (c :: acc)
  end.

Fixpoint read_digits (cs : list ascii) (acc : Z) : Z * list ascii :=
  match cs with
  | c :: rest =>
      if is_digit c
      then read_digits rest (10 * acc + Z.of_N (N_of_ascii c - 48))%Z
      else (acc, cs)
  | [] => (acc, [])
  end.

(** An integer literal: digits without a leading zero, no fraction, no
    exponent. *)
Definition read_integer (cs : list ascii) : option (Z * list ascii) :=
  match cs with
  | c :: rest =>
      if negb (is_digit c) then None
      else if is_char 48 c && match rest with d :: _ => is_digit d | [] => false end
      then None
      else
        let (n, rest') := read_digits cs 0%Z in
        match rest' with
        | x :: _ =>
            if is_char 46 x || is_char 101 x || is_char 69 x then None
            else Some (n, rest')
        | [] => Some (n, rest')
        end
  | [] => None
  end.

Definition read_number (cs : list ascii) : option (json * list ascii) :=
  match cs with
  | c :: rest =>
      if is_char 45 c
      then p <-? read_integer rest ;; Some (JNum (inject_Z (- fst p)), snd p)
      else p <-? read_integer cs ;; Some (JNum (inject_Z (fst p)), snd p)
  | [] => None
  end.

Fixpoint read_value (fuel : nat) (cs : list ascii) : option (json * list ascii) :=
  match fuel with
  | O => None
  | S fuel' =>
      match skip_whitespace cs with
      | [] => None
      | c :: rest =>
          if is_char 110 c then r <-? strip_prefix (list_ascii_of_string "ull") rest ;;
                                Some (JNull, r)
          else if is_char 116 c then r <-? strip_prefix (list_ascii_of_string "rue") rest ;;
                                     Some (JBool true, r)
          else if is_char 102 c then r <-? strip_prefix (list_ascii_of_string "alse") rest ;;
                                     Some (JBool false, r)
          else if is_char 34 c then p <-? read_string rest [] ;; Some (JStr (fst p), snd p)
          else if is_char 91 c then
            match skip_whitespace rest with
            | d :: rest' =>
                if is_char 93 d then Some (JArr [], rest')
                else p <-? read_items fuel' rest ;; Some (JArr (fst p), snd p)
            | [] => None
            end
          else if is_char 123 c then
            match skip_whitespace rest with
            | d :: rest' =>
                if is_char 125 d then Some (JObj [], rest')
                else p <-? read_members fuel' rest ;;
                     Some (JObj (fold_left (fun o kv => spread_set o (fst kv) (snd kv))
                                           (fst p) []), snd p)
            | [] => None
            end
          else read_number (c :: rest)
      end
  end
with read_items (fuel : nat) (cs : list ascii) : option (list json * list ascii) :=
  match fuel with
  | O => None
  | S fuel' =>
      p <-? read_value fuel' cs ;;
      match skip_whitespace (snd p) with
      | d :: rest =>
          if is_char 44 d
          then q <-? read_items fuel' rest ;; Some (fst p :: fst q, snd q)
          else if is_char 93 d then Some ([fst p], rest)
          else None
      | [] => None
      end
  end
with read_members (fuel : nat) (cs : list ascii) : option (obj * list ascii) :=
  match fuel with
  | O => None
  | S fuel' =>
      match skip_whitespace cs with
      | c :: rest =>
          if is_char 34 c then
            k <-? read_string rest [] ;;
            match skip_whitespace (snd k) with
            | d :: rest1 =>
                if is_char 58 d then
                  v <-? read_value fuel' rest1 ;;
                  match skip_whitespace (snd v) with
                  | e :: rest2 =>
                      if is_char 44 e
                      then q <-? read_members fuel' rest2 ;;
                           Some ((fst k, fst v) :: fst q, snd q)
                      else if is_char 125 e then Some ([(fst k, fst v)], rest2)
                      else None
                  | [] => None
                  end
                else None
            | [] => None
            end
          else None
      | [] => None
      end
  end.

Definition JSON_parse_reference (text : string) : option json :=
  let cs := list_ascii_of_string text in
  p <-? read_value (2 * length cs + 2) cs ;;
  match skip_whitespace (snd p) with
  | [] => Some (fst p)
  | _ :: _ => None
  end.

Definition embed_by_length (text : string) : result Vec :=
  if (280 <? String.length text)%nat
  then Throw "Request payload size exceeds the limit"
  else Ok [inject_Z (Z.of_nat (String.length text))].

Definition distance_1d (v q : Vec) : Q :=
  match v, q with
  | [a], [b] => Qabs (a - b) * (1 # 100)
  | _, _ => 1
  end.

(** The reference services around a reasoning model that gives [reply]. *)
Definition reference (reply : result string) : Services :=
  {| embed_content := embed_by_length;
     generateContent := fun _ => reply;
     cosine_distance := distance_1d;
     upsert_error := fun _ => None;
     rpc_error := fun _ _ _ => None;
     Number_toString := Number_toString_integral;
     toLowerCase := toLowerCase_ascii;
     JSON_parse := JSON_parse_reference;
     DEFAULT_TOP_N := 5;
     DEFAULT_SIM_THRESHOLD := 1 # 4 |}.

(** ** Sample data

    A catalogue of three films, two of them with titles that differ by
    case only, the worlds before and after its ingestion, and a few
    requests. *)

Definition film (title : string) (year : Z) (genres : list string) (plot : string)
  : json :=
  JObj [ ("title", JStr title);
         ("year", JNum (inject_Z year));
         ("genres", JArr (map JStr genres));
         ("plot", JStr plot) ].

Definition inception : json :=
  film "Inception" 2010 ["Sci-Fi"; "Thriller"]
       "A thief enters dreams to plant ideas.".

Definition la_la_land : json :=
  film "La La Land" 2016 ["Romance"; "Musical"]
       "A jazz pianist and an actress fall in love in LA.".

Definition inception_remake : json :=
  film "INCEPTION" 2031 ["Sci-Fi"] "The dream heist, told again.".

Definition catalogue : json :=
  JObj [ ("movies", JArr [inception; la_la_land; inception_remake]) ].

(** A film whose canonical text is over the provider's limit. *)
Definition overlong : json :=
  film "Satantango" 1994 ["Drama"] (String.concat " " (repeat "rain" 80)).

Definition catalogue_with_overlong : json :=
  JObj [ ("movies", JArr [inception; overlong; la_la_land]) ].

Definition silent : Services := reference (Throw "reasoning model unavailable").

Definition empty_world : World :=
  {| table := {| records := []; next_uuid := 0%nat |}; calls := [] |}.

Definition stocked_world : World :=
  {| table := table (snd (ingest_movies (env := silent) catalogue empty_world));
     calls := [] |}.

Definition question : json := JArr [JStr "mind-bending sci-fi"].

Definition request (fields : obj) : json := JObj (("answers", question) :: fields).

Definition number (n : Z) : json := JNum (inject_Z n).

(** The answers of a reasoning model: a well-formed list, prose, and JSON
    that is not a list. *)
Definition reason_entries : list json :=
  [ JObj [ ("title", JStr "inception"); ("reason", JStr "dream heist") ];
    JObj [ ("title", JStr "Inception"); ("reason", JStr "the original") ] ].

Definition reasons : json := JArr reason_entries.

Definition reasoned : Services :=
  reference (Ok (JSON_stringify Number_toString_integral reasons)).

Definition chatty : Services := reference (Ok "Sorry, I cannot rank these.").

Definition wrapped : Services :=
  reference (Ok (JSON_stringify Number_toString_integral
                   (JObj [ ("ranking", reasons) ]))).

(** A store that holds one film, and the batch that brings the same film
    again under the identifier the store gave it, run once and twice. *)
Definition with_id (i : string) (movie : json) : json :=
  match movie with
  | JObj o => JObj (("id", JStr i) :: o)
  | _ => movie
  end.

Definition batch (movies : list json) : json := JObj [ ("movies", JArr movies) ].

Definition stored : World :=
  snd (ingest_movies (env := silent) (batch [inception]) empty_world).

Definition keyed_batch : json := batch [with_id "0" inception].

Definition reingested_once : World :=
  snd (ingest_movies (env := silent) keyed_batch stored).

Definition reingested_twice : World :=
  snd (ingest_movies (env := silent) keyed_batch reingested_once).

Definition id_and_title (m : MovieRecord) : uuid * string := (id m, title m).

(** The rows the store returns for the sample question. *)
Definition sample_rows : list Match :=
  match match_movies (env := silent) (table stocked_world)
          [inject_Z 144] 5 (1 # 4) with
  | Ok rows => rows
  | Throw _ => []
  end.

(** The reference services with the store out of reach. *)
Definition store_down : Services :=
  {| embed_content := embed_by_length;
     generateContent := fun _ => Throw "reasoning model unavailable";
     cosine_distance := distance_1d;
     upsert_error := fun _ => Some "connection refused";
     rpc_error := fun _ _ _ => Some "connection refused";
     Number_toString := Number_toString_integral;
     toLowerCase := toLowerCase_ascii;
     JSON_parse := JSON_parse_reference;
     DEFAULT_TOP_N := 5;
     DEFAULT_SIM_THRESHOLD := 1 # 4 |}.

(** A request whose profile is over the embedding provider's limit, and a
    batch with a film that has no title. *)
Definition overlong_request : json :=
  JObj [ ("answers", JArr [JStr (String.concat " " (repeat "rain" 80))]) ].

Definition untitled : json := JObj [ ("year", number 1999) ].

(** The sample rows after the merge with the sample reasons. *)
Definition sample_merged : list obj :=
  match withReason (env := silent) reasons sample_rows with
  | Ok out => out
  | Throw _ => []
  end.

Section Properties.
Context {env : Services}.

(** * Properties *)

(** ** Lists, windows and sorted sequences *)

Lemma Forall_firstn {A} (P : A -> Prop) (n : nat) (l : list A) :
  Forall P l -> Forall P (firstn n l).
Proof.
  intros H. revert n.
  induction H as [|a l Ha Hl IH]; intros [|n]; simpl; auto.
Qed.

Lemma Forall_skipn {A} (P : A -> Prop) (n : nat) (l : list A) :
  Forall P l -> Forall P (skipn n l).
Proof.
  intros H. revert n.
  induction H as [|a l Ha Hl IH]; intros [|n]; simpl; auto.
Qed.

Lemma StronglySorted_firstn {A} (R : A -> A -> Prop) (n : nat) (l : list A) :
  StronglySorted R l -> StronglySorted R (firstn n l).
Proof.
  intros H. revert n.
  induction H as [|a l Hl IH Ha]; intros [|n]; simpl; try constructor; auto.
  now apply Forall_firstn.
Qed.

Lemma StronglySorted_skipn {A} (R : A -> A -> Prop) (n : nat) (l : list A) :
  StronglySorted R l -> StronglySorted R (skipn n l).
Proof.
  intros H. revert n.
  induction H as [|a l Hl IH Ha]; intros [|n]; simpl;
    try (constructor; assumption); auto.
Qed.

Lemma StronglySorted_map {A B} (f : A -> B) (R : B -> B -> Prop) (l : list A) :
  StronglySorted (fun a b => R (f a) (f b)) l -> StronglySorted R (map f l).
Proof.
  induction 1 as [|a l Hl IH Ha]; simpl; constructor; auto.
  rewrite Forall_map. exact Ha.
Qed.

Lemma StronglySorted_nth_error {A} (R : A -> A -> Prop) (l : list A) :
  StronglySorted R l ->
  forall i j a b, (i < j)%nat ->
    nth_error l i = Some a -> nth_error l j = Some b -> R a b.
Proof.
  induction 1 as [|x l Hl IH Hx]; intros i j a b Hij Hi Hj.
  - destruct i; discriminate.
  - destruct j as [|j]; [lia|]. simpl in Hj.
    destruct i as [|i]; simpl in Hi.
    + injection Hi as <-. rewrite Forall_forall in Hx.
      apply Hx. eapply nth_error_In; eauto.
    + apply (IH i j a b); [lia | assumption | assumption].
Qed.

Lemma Forall2_nth_error {A B} (R : A -> B -> Prop) (l : list A) (l' : list B) :
  Forall2 R l l' ->
  forall i b, nth_error l' i = Some b ->
    exists a, nth_error l i = Some a /\ R a b.
Proof.
  induction 1 as [|a b l l' Hab Hl IH]; intros i c Hi.
  - destruct i; discriminate.
  - destruct i as [|i]; simpl in *.
    + injection Hi as <-. eauto.
    + eauto.
Qed.

Lemma Forall2_nth_error_l {A B} (R : A -> B -> Prop) (l : list A) (l' : list B) :
  Forall2 R l l' ->
  forall i a, nth_error l i = Some a ->
    exists b, nth_error l' i = Some b /\ R a b.
Proof.
  induction 1 as [|a b l l' Hab Hl IH]; intros i c Hi.
  - destruct i; discriminate.
  - destruct i as [|i]; simpl in *.
    + injection Hi as <-. eauto.
    + eauto.
Qed.

Lemma Forall2_map_r {A B} (f : A -> B) (l : list A) :
  Forall2 (fun a b => b = f a) l (map f l).
Proof. induction l; simpl; constructor; auto. Qed.

Lemma Forall2_Forall_r {A B} (R : A -> B -> Prop) (P : B -> Prop)
      (l : list A) (l' : list B) :
  Forall2 R l l' -> (forall a b, R a b -> P b) -> Forall P l'.
Proof. intros H HP. induction H; constructor; eauto. Qed.

(** The window removes elements and keeps the rest in order. *)
Lemma slice_Forall {A} (P : A -> Prop) (l : list A) (start end_ : Z) :
  Forall P l -> Forall P (slice l start end_).
Proof. intros H. unfold slice. now apply Forall_firstn, Forall_skipn. Qed.

Lemma slice_StronglySorted {A} (R : A -> A -> Prop) (l : list A) (start end_ : Z) :
  StronglySorted R l -> StronglySorted R (slice l start end_).
Proof.
  intros H. unfold slice. now apply StronglySorted_firstn, StronglySorted_skipn.
Qed.

Lemma slice_length {A} (l : list A) (offset topN : Z) :
  (0 <= offset)%Z -> (0 <= topN)%Z ->
  Z.of_nat (length (slice l offset (offset + topN)))
  = Z.min topN (Z.max 0 (Z.of_nat (length l) - offset)).
Proof.
  intros Ho Hn. unfold slice.
  rewrite length_firstn, length_skipn.
  destruct (offset <? 0)%Z eqn:E1; [apply Z.ltb_lt in E1; lia|].
  destruct (offset + topN <? 0)%Z eqn:E2; [apply Z.ltb_lt in E2; lia|].
  lia.
Qed.

Lemma map_throwing_Forall2 {A B} (f : A -> result B) (l : list A) (out : list B) :
  map_throwing f l = Ok out -> Forall2 (fun a b => f a = Ok b) l out.
Proof.
  revert out. induction l as [|a l IH]; simpl; intros out H.
  - injection H as <-. constructor.
  - destruct (f a) as [b|e] eqn:Ea; simpl in H; [|discriminate].
    destruct (map_throwing f l) as [bs|e] eqn:El; simpl in H; [|discriminate].
    injection H as <-. constructor; auto.
Qed.

Lemma map_throwing_total {A B} (f : A -> result B) (l : list A) :
  Forall (fun a => exists b, f a = Ok b) l ->
  exists out, map_throwing f l = Ok out.
Proof.
  induction 1 as [|a l [b Hb] Hl [out IH]]; simpl.
  - eauto.
  - rewrite Hb. simpl. rewrite IH. simpl. eauto.
Qed.

(** ** The SQL function *)

Lemma Qle_bool_false (a b : Q) : Qle_bool a b = false -> b <= a.
Proof.
  intros H. destruct (Qlt_le_dec b a) as [Hlt|Hle].
  - now apply Qlt_le_weak.
  - apply Qle_bool_iff in Hle. congruence.
Qed.

Lemma insert_by_distance_perm q m l :
  Permutation (m :: l) (insert_by_distance q m l).
Proof.
  induction l as [|x l IH]; simpl.
  - apply Permutation_refl.
  - destruct (Qle_bool (distance q m) (distance q x)).
    + apply Permutation_refl.
    + eapply perm_trans; [apply perm_swap|]. now apply perm_skip.
Qed.

Lemma order_by_distance_perm q l : Permutation l (order_by_distance q l).
Proof.
  induction l as [|m l IH]; simpl.
  - constructor.
  - eapply perm_trans; [apply perm_skip, IH|]. apply insert_by_distance_perm.
Qed.

Lemma insert_by_distance_sorted q m l :
  StronglySorted (ascending_distance q) l ->
  StronglySorted (ascending_distance q) (insert_by_distance q m l).
Proof.
  induction 1 as [|x l Hl IH Hx]; simpl.
  - repeat constructor.
  - destruct (Qle_bool (distance q m) (distance q x)) eqn:E.
    + apply Qle_bool_iff in E.
      constructor; [constructor; assumption|].
      constructor; [exact E|].
      eapply Forall_impl; [|exact Hx].
      intros y Hy. unfold ascending_distance in *. eapply Qle_trans; eauto.
    + apply Qle_bool_false in E.
      constructor; [exact IH|].
      eapply Permutation_Forall; [apply insert_by_distance_perm|].
      constructor; assumption.
Qed.

Lemma order_by_distance_sorted q l :
  StronglySorted (ascending_distance q) (order_by_distance q l).
Proof.
  induction l as [|m l IH]; simpl.
  - constructor.
  - now apply insert_by_distance_sorted.
Qed.

Lemma match_movies_Ok t q k thr :
  (0 <= k)%Z -> exists rows, match_movies t q k thr = Ok rows.
Proof.
  intros Hk. unfold match_movies.
  destruct (k <? 0)%Z eqn:E; [apply Z.ltb_lt in E; lia|]. eauto.
Qed.

Lemma match_movies_threshold t q k thr rows :
  match_movies t q k thr = Ok rows ->
  Forall (fun r => thr <= r_score r) rows.
Proof.
  unfold match_movies. destruct (k <? 0)%Z; [discriminate|].
  intros H. injection H as <-.
  apply Forall_firstn. rewrite Forall_map.
  eapply Permutation_Forall; [apply order_by_distance_perm|].
  rewrite Forall_forall. intros m Hm.
  apply filter_In in Hm. destruct Hm as [_ Hm].
  now apply Qle_bool_iff in Hm.
Qed.

Lemma match_movies_sorted t q k thr rows :
  match_movies t q k thr = Ok rows ->
  StronglySorted descending_score rows.
Proof.
  unfold match_movies. destruct (k <? 0)%Z; [discriminate|].
  intros H. injection H as <-.
  apply StronglySorted_firstn, StronglySorted_map.
  generalize (order_by_distance_sorted q
                (filter (where_threshold q thr) (records t))).
  generalize (order_by_distance q (filter (where_threshold q thr) (records t))).
  induction 1 as [|a l Hl IH Ha]; constructor; auto.
  eapply Forall_impl; [|exact Ha].
  intros b Hb. unfold descending_score, ascending_distance in *. simpl.
  unfold similarity. lra.
Qed.

Lemma match_movies_length t q k thr rows :
  match_movies t q k thr = Ok rows ->
  length rows = Nat.min (Z.to_nat k) (available t q thr).
Proof.
  unfold match_movies. destruct (k <? 0)%Z; [discriminate|].
  intros H. injection H as <-.
  rewrite length_firstn, length_map. unfold available.
  now rewrite <- (Permutation_length (order_by_distance_perm q _)).
Qed.

(** ** Rerank-merge *)

Lemma readable_title x :
  readable_entry x = true -> exists t, title_toLowerCase x = Ok t.
Proof.
  destruct x as [| | | | |o]; simpl; try discriminate; eauto.
  destruct (get "title" o) as [[| | | | |]|]; try discriminate; eauto.
Qed.

Lemma same_title_has_title x r b :
  same_title x r = Ok b -> b = has_title (toLowerCase (r_title r)) x.
Proof.
  unfold same_title, has_title.
  destruct x as [| | | | |o]; simpl; try congruence.
  destruct (get "title" o) as [[| | | | |]|]; simpl; congruence.
Qed.

Lemma same_title_congr x r1 r2 :
  toLowerCase (r_title r1) = toLowerCase (r_title r2) ->
  same_title x r1 = same_title x r2.
Proof. intros H. unfold same_title. now rewrite H. Qed.

Lemma Array_find_first r entries found :
  Array_find r entries = Ok found ->
  found = first_with_title (toLowerCase (r_title r)) entries.
Proof.
  unfold first_with_title.
  induction entries as [|x rest IH]; simpl; intros H.
  - congruence.
  - destruct (same_title x r) as [b|e] eqn:E; simpl in H; [|discriminate].
    apply same_title_has_title in E. rewrite <- E.
    destruct b; [congruence | auto].
Qed.

Lemma Array_find_congr r1 r2 entries :
  toLowerCase (r_title r1) = toLowerCase (r_title r2) ->
  Array_find r1 entries = Array_find r2 entries.
Proof.
  intros H. induction entries as [|x rest IH]; simpl; [reflexivity|].
  rewrite (same_title_congr x r1 r2 H), IH. reflexivity.
Qed.

Lemma Array_find_total r entries :
  Forall (fun x => readable_entry x = true) entries ->
  exists found, Array_find r entries = Ok found.
Proof.
  induction 1 as [|x rest Hx Hrest [found IH]]; simpl; [eauto|].
  destruct (readable_title x Hx) as [t Ht].
  unfold same_title. rewrite Ht. simpl.
  destruct t as [s|]; simpl.
  - destruct (String.eqb s (toLowerCase (r_title r))); eauto.
  - eauto.
Qed.

Lemma with_reason_annotates reranked r o :
  with_reason reranked r = Ok o ->
  exists found, find reranked r = Ok found /\ o = annotate r (reason_or_null found).
Proof.
  unfold with_reason. destruct (find reranked r) as [found|e]; simpl; [|discriminate].
  intros H. injection H as <-. exists found. split; reflexivity.
Qed.

Lemma withReason_annotates reranked sliced out :
  withReason reranked sliced = Ok out ->
  Forall2 (fun r o => exists found,
               find reranked r = Ok found /\ o = annotate r (reason_or_null found))
          sliced out.
Proof.
  intros H. apply map_throwing_Forall2 in H.
  eapply Forall2_impl; [|exact H].
  intros r o. apply with_reason_annotates.
Qed.

Lemma get_why_annotate r why : get "why" (annotate r why) = Some why.
Proof. reflexivity. Qed.

(** C1.  For every paginated candidate sequence and every parsed rerank
    list (entries whose title the merge can read), rerank-merge returns a
    sequence of the same length, the candidates in the same order, each
    with its id, title, year, genres, score and metadata as the store
    returned them; the one property added is [why]. *)
Theorem rerank_merge_only_sets_why (entries : list json) (sliced : list Match) :
  Forall (fun x => readable_entry x = true) entries ->
  exists out,
    withReason (JArr entries) sliced = Ok out /\
    length out = length sliced /\
    forall i r, nth_error sliced i = Some r ->
      exists o why,
        nth_error out i = Some o /\
        o = (object_of_match r ++ [("why", why)])%list /\
        get "id" o = Some (json_of_uuid (r_id r)) /\
        get "title" o = Some (JStr (r_title r)) /\
        get "year" o = Some (json_of_year (r_year r)) /\
        get "genres" o = Some (JArr (map JStr (r_genres r))) /\
        get "score" o = Some (JNum (r_score r)) /\
        get "metadata" o = Some (JObj (r_metadata r)).
Proof.
  intros Hentries.
  destruct (map_throwing_total (with_reason (JArr entries)) sliced) as [out Hout].
  { rewrite Forall_forall. intros r _.
    destruct (Array_find_total r entries Hentries) as [found Hfound].
    unfold with_reason. simpl. rewrite Hfound. simpl. eauto. }
  exists out. split; [exact Hout|].
  pose proof (withReason_annotates _ _ _ Hout) as H2.
  split; [symmetry; eapply Forall2_length; exact H2|].
  intros i r Hi.
  destruct (Forall2_nth_error_l _ _ _ H2 i r Hi) as [o [Ho [found [_ ->]]]].
  exists (annotate r (reason_or_null found)), (reason_or_null found).
  repeat split; auto.
Qed.

(** C10.  Two candidates of the paginated list whose titles are equal in
    lower case get the same [why]: each takes the reason of the first
    parsed entry with that title. *)
Theorem duplicate_titles_share_why
        (entries : list json) (sliced : list Match) (out : list obj)
        (i j : nat) (ri rj : Match) :
  withReason (JArr entries) sliced = Ok out ->
  nth_error sliced i = Some ri ->
  nth_error sliced j = Some rj ->
  toLowerCase (r_title ri) = toLowerCase (r_title rj) ->
  exists oi oj,
    nth_error out i = Some oi /\
    nth_error out j = Some oj /\
    get "why" oi
    = Some (reason_or_null
              (first_with_title (toLowerCase (r_title ri)) entries)) /\
    get "why" oj = get "why" oi.
Proof.
  intros Hout Hi Hj Htitle.
  pose proof (withReason_annotates _ _ _ Hout) as H2.
  destruct (Forall2_nth_error_l _ _ _ H2 i ri Hi) as [oi [Hoi [fi [Hfi ->]]]].
  destruct (Forall2_nth_error_l _ _ _ H2 j rj Hj) as [oj [Hoj [fj [Hfj ->]]]].
  simpl in Hfi, Hfj.
  rewrite <- (Array_find_congr ri rj entries Htitle) in Hfj.
  assert (fj = fi) as -> by congruence.
  apply Array_find_first in Hfi. subst fi.
  exists (annotate ri (reason_or_null (first_with_title (toLowerCase (r_title ri)) entries))),
         (annotate rj (reason_or_null (first_with_title (toLowerCase (r_title ri)) entries))).
  repeat split; auto.
Qed.

(** ** The recommend handler *)

Local Abbreviation topN_of data := (or_default (topN data) DEFAULT_TOP_N).
Local Abbreviation offset_of data := (or_default (offset data) 0%Z).
Local Abbreviation threshold_of data := (or_default (threshold data) DEFAULT_SIM_THRESHOLD).
Local Abbreviation rerank_of data := (or_default (rerank data) false).
Local Abbreviation match_count_of data := (topN_of data + offset_of data)%Z.
Local Abbreviation results cands := (JObj [("topN", JArr cands)]).

(** What the handler has done when it answers 200. *)
Lemma recommend_200 (req_body resp : json) (w w' : World) :
  recommend req_body w = (R200 resp, w') ->
  exists data qvec rows,
    RecommendBodySchema req_body = Some data /\
    embed_content (joinAnswers (answers data)) = Ok qvec /\
    rpc_error qvec (match_count_of data) (threshold_of data) = None /\
    match_movies (table w) qvec (match_count_of data) (threshold_of data) = Ok rows /\
    if rerank_of data
    then exists text out,
        generateContent
          (rerankPrompt (joinAnswers (answers data))
             (slice rows (offset_of data) (offset_of data + topN_of data)))
        = Ok text /\
        withReason (parse_reranked text)
          (slice rows (offset_of data) (offset_of data + topN_of data)) = Ok out /\
        resp = results (map JObj out)
    else resp = results
                  (map project (slice rows (offset_of data) (offset_of data + topN_of data))).
Proof.
  unfold recommend.
  destruct (RecommendBodySchema req_body) as [data|]; [|discriminate].
  unfold respond, mbind, await, embed, generate_text, supabase_rpc_match_movies, ret.
  destruct (embed_content (joinAnswers (answers data))) as [qvec|e] eqn:Eq;
    [|discriminate].
  destruct (rpc_error qvec (match_count_of data) (threshold_of data)) as [e|] eqn:Er;
    [discriminate|].
  cbn [table record_call].
  destruct (match_movies (table w) qvec (match_count_of data) (threshold_of data))
    as [rows|e] eqn:Em; [|discriminate].
  intros H. exists data, qvec, rows.
  repeat (split; [solve [auto]|]).
  destruct (rerank_of data); simpl in H.
  - destruct (generateContent _) as [text|e] eqn:Eg; [|discriminate].
    destruct (withReason _ _) as [out|e] eqn:Ew; [|discriminate].
    injection H as <- _. exists text, out. auto.
  - injection H as <- _. auto.
Qed.

(** Without rerank the handler answers 200 as soon as the embedding and
    the store call succeed. *)
Lemma recommend_plain (req_body : json) (data : RecommendBody) (qvec : Vec)
      (rows : list Match) (w : World) :
  RecommendBodySchema req_body = Some data ->
  rerank_of data = false ->
  embed_content (joinAnswers (answers data)) = Ok qvec ->
  rpc_error qvec (match_count_of data) (threshold_of data) = None ->
  match_movies (table w) qvec (match_count_of data) (threshold_of data) = Ok rows ->
  fst (recommend req_body w)
  = R200 (results (map project
                     (slice rows (offset_of data) (offset_of data + topN_of data)))).
Proof.
  intros Hs Hr He Hp Hm. unfold recommend. rewrite Hs.
  unfold respond, mbind, await, embed, supabase_rpc_match_movies, ret.
  rewrite He, Hp. cbn [table record_call]. rewrite Hm, Hr. reflexivity.
Qed.

(** The schema's bounds on the pagination parameters. *)
Lemma z_check_between lo hi i n :
  z_check (between lo hi) i = Some n -> (lo <= n <= hi)%Z.
Proof.
  unfold z_check, between.
  destruct ((lo <=? i) && (i <=? hi))%Z eqn:E; [|discriminate].
  intros H. injection H as <-.
  apply andb_true_iff in E. destruct E as [E1 E2].
  apply Z.leb_le in E1, E2. lia.
Qed.

Lemma obind_Some {A B} (c : option A) (k : A -> option B) (b : B) :
  obind c k = Some b -> exists a, c = Some a /\ k a = Some b.
Proof. destruct c as [a|]; simpl; [eauto | discriminate]. Qed.

Lemma z_optional_int_between lo hi (v : option json) (n : Z) :
  z_optional (fun v => i <-? z_number_int v ;; z_check (between lo hi) i) v
  = Some (Some n) ->
  (lo <= n <= hi)%Z.
Proof.
  destruct v as [x|]; simpl; [|discriminate].
  intros H. apply obind_Some in H. destruct H as [a [H Ha]].
  injection Ha as ->.
  apply obind_Some in H. destruct H as [i [_ H]].
  now apply z_check_between in H.
Qed.

Lemma RecommendBodySchema_bounds (req_body : json) (data : RecommendBody) :
  RecommendBodySchema req_body = Some data ->
  (forall n, topN data = Some n -> (1 <= n <= 50)%Z) /\
  (forall k, offset data = Some k -> (0 <= k <= 500)%Z) /\
  (1 <= length (answers data) <= 10)%nat.
Proof.
  unfold RecommendBodySchema. destruct req_body as [| | | | |o]; try discriminate.
  intros H.
  apply obind_Some in H. destruct H as [a0 [_ H]].
  apply obind_Some in H. destruct H as [a [Ha H]].
  apply obind_Some in H. destruct H as [n [Hn H]].
  apply obind_Some in H. destruct H as [k [Hk H]].
  apply obind_Some in H. destruct H as [t [_ H]].
  apply obind_Some in H. destruct H as [r [_ H]].
  injection H as <-. simpl.
  split; [|split].
  - intros n' ->. now apply z_optional_int_between in Hn.
  - intros k' ->. now apply z_optional_int_between in Hk.
  - unfold z_check in Ha.
    destruct ((1 <=? length a0)%nat && (length a0 <=? 10)%nat) eqn:E; [|discriminate].
    injection Ha as <-. apply andb_true_iff in E. destruct E as [E1 E2].
    apply Nat.leb_le in E1, E2. lia.
Qed.

Lemma recommend_200_candidates (req_body resp : json) (w w' : World) :
  recommend req_body w = (R200 resp, w') ->
  exists data qvec rows cands,
    RecommendBodySchema req_body = Some data /\
    embed_content (joinAnswers (answers data)) = Ok qvec /\
    match_movies (table w) qvec (match_count_of data) (threshold_of data) = Ok rows /\
    resp = results cands /\
    Forall2 (candidate_of (rerank_of data))
      (slice rows (offset_of data) (offset_of data + topN_of data)) cands.
Proof.
  intros H. apply recommend_200 in H.
  destruct H as (data & qvec & rows & Hs & He & _ & Hm & H).
  exists data, qvec, rows.
  destruct (rerank_of data) eqn:Er.
  - destruct H as (text & out & _ & Hw & ->).
    exists (map JObj out). repeat (split; [assumption || reflexivity|]).
    apply withReason_annotates in Hw.
    induction Hw as [|r o l l' [found [_ ->]] Hl IH]; simpl; constructor; auto.
    simpl. eauto.
  - subst resp. eexists. repeat (split; [eassumption || reflexivity|]).
    generalize (slice rows (offset_of data) (offset_of data + topN_of data)).
    induction l; simpl; constructor; auto. reflexivity.
Qed.

Lemma candidate_of_score rerank r c :
  candidate_of rerank r c -> candidate_score c = Some (r_score r).
Proof. destruct rerank; simpl; [intros [why ->] | intros ->]; reflexivity. Qed.

Lemma slice_nonneg {A} (l : list A) (offset topN : Z) :
  (0 <= offset)%Z -> (0 <= topN)%Z ->
  slice l offset (offset + topN) = firstn (Z.to_nat topN) (skipn (Z.to_nat offset) l).
Proof.
  intros Ho Hn. unfold slice.
  destruct (offset <? 0)%Z eqn:E1; [apply Z.ltb_lt in E1; lia|].
  destruct (offset + topN <? 0)%Z eqn:E2; [apply Z.ltb_lt in E2; lia|].
  destruct (Z_le_gt_dec (Z.of_nat (length l)) offset) as [Hle|Hgt].
  - rewrite !skipn_all2 by lia. now rewrite !firstn_nil.
  - rewrite (Z.min_l offset) by lia.
    destruct (Z_le_gt_dec (offset + topN) (Z.of_nat (length l))) as [Hin|Hout].
    + rewrite (Z.min_l (offset + topN)) by lia.
      replace (offset + topN - offset)%Z with topN by lia. reflexivity.
    + rewrite (Z.min_r (offset + topN)) by lia.
      rewrite !firstn_all2; [reflexivity | |]; rewrite length_skipn; lia.
Qed.

(** A retrieval call leaves the table as it was and asks the store once. *)
Lemma recommend_store_calls (req_body : json) (data : RecommendBody) (qvec : Vec)
      (w : World) :
  RecommendBodySchema req_body = Some data ->
  embed_content (joinAnswers (answers data)) = Ok qvec ->
  table (snd (recommend req_body w)) = table w /\
  filter is_store_call (calls (snd (recommend req_body w)))
  = (filter is_store_call (calls w)
     ++ [CallMatchMovies qvec (match_count_of data) (threshold_of data)])%list.
Proof.
  intros Hs He. unfold recommend. rewrite Hs.
  unfold respond, mbind, await, embed, generate_text, supabase_rpc_match_movies, ret.
  rewrite He.
  assert (Hlog : forall later,
             Forall (fun c => is_store_call c = false) later ->
             filter is_store_call
               (((calls w ++ [CallEmbed (joinAnswers (answers data))])
                 ++ [CallMatchMovies qvec (match_count_of data) (threshold_of data)])
                ++ later)
             = (filter is_store_call (calls w)
                ++ [CallMatchMovies qvec (match_count_of data) (threshold_of data)])%list).
  { intros later Hl. rewrite !filter_app. simpl.
    replace (filter is_store_call later) with (@nil Call).
    - now rewrite !app_nil_r.
    - symmetry. induction Hl as [|c l Hc _ IH]; simpl; [reflexivity|].
      now rewrite Hc. }
  pose proof (Hlog [] (Forall_nil _)) as H0. rewrite app_nil_r in H0.
  destruct (rpc_error _ _ _); [split; [reflexivity | exact H0]|].
  cbn [table record_call calls].
  destruct (match_movies _ _ _ _) as [rows|e]; [|split; [reflexivity | exact H0]].
  destruct (rerank_of data); cbn [negb]; [|split; [reflexivity | exact H0]].
  cbn [table record_call calls].
  specialize (Hlog [CallGenerate
                      (rerankPrompt (joinAnswers (answers data))
                         (slice rows (offset_of data) (offset_of data + topN_of data)))]
                   ltac:(repeat constructor)).
  destruct (generateContent _); [|split; [reflexivity | exact Hlog]].
  destruct (withReason _ _); split; solve [reflexivity | exact Hlog].
Qed.

Lemma effective_window (req_body : json) (data : RecommendBody) :
  RecommendBodySchema req_body = Some data ->
  (0 <= DEFAULT_TOP_N)%Z ->
  (0 <= topN_of data)%Z /\ (0 <= offset_of data)%Z.
Proof.
  intros Hs Hd. destruct (RecommendBodySchema_bounds _ _ Hs) as (Hn & Hk & _).
  split.
  - destruct (topN data) as [n|]; simpl; [|assumption].
    specialize (Hn n eq_refl). lia.
  - destruct (offset data) as [k|]; simpl; [|lia].
    specialize (Hk k eq_refl). lia.
Qed.

(** C2.  A retrieval call with parameters (topN, offset, threshold) asks
    the store once, for [topN + offset] rows at or above the threshold;
    the handler drops the first [offset] rows of the answer and keeps up to
    [topN], so the number of candidates returned is
    [min topN (max 0 (available - offset))]; when no more than [offset]
    rows reach the threshold the answer is an empty list with status 200. *)
Theorem pagination_window_count
        (req_body : json) (data : RecommendBody) (qvec : Vec) (w : World) :
  RecommendBodySchema req_body = Some data ->
  (0 <= DEFAULT_TOP_N)%Z ->
  embed_content (joinAnswers (answers data)) = Ok qvec ->
  rpc_error qvec (topN_of data + offset_of data) (threshold_of data) = None ->
  filter is_store_call (calls (snd (recommend req_body w)))
  = (filter is_store_call (calls w)
     ++ [CallMatchMovies qvec (topN_of data + offset_of data) (threshold_of data)])%list /\
  (forall resp, fst (recommend req_body w) = R200 resp ->
     exists rows cands,
       match_movies (table w) qvec (topN_of data + offset_of data) (threshold_of data)
       = Ok rows /\
       resp = results cands /\
       Forall2 (candidate_of (rerank_of data))
         (firstn (Z.to_nat (topN_of data)) (skipn (Z.to_nat (offset_of data)) rows))
         cands /\
       Z.of_nat (length cands)
       = Z.min (topN_of data)
           (Z.max 0 (Z.of_nat (available (table w) qvec (threshold_of data))
                     - offset_of data))) /\
  (rerank_of data = false ->
     exists cands,
       fst (recommend req_body w) = R200 (results cands) /\
       ((Z.of_nat (available (table w) qvec (threshold_of data)) <= offset_of data)%Z ->
        cands = [])).
Proof.
  intros Hs Hd He Hp.
  destruct (effective_window _ _ Hs Hd) as [Hn Hk].
  assert (Hcount : forall rows (cands : list json),
             match_movies (table w) qvec (topN_of data + offset_of data)
               (threshold_of data) = Ok rows ->
             length cands
             = length (slice rows (offset_of data) (offset_of data + topN_of data)) ->
             Z.of_nat (length cands)
             = Z.min (topN_of data)
                 (Z.max 0 (Z.of_nat (available (table w) qvec (threshold_of data))
                           - offset_of data))).
  { intros rows cands Hm Hl. rewrite Hl, slice_length by assumption.
    rewrite (match_movies_length _ _ _ _ _ Hm). lia. }
  split; [|split].
  - apply (recommend_store_calls _ _ _ _ Hs He).
  - intros resp H.
    destruct (recommend req_body w) as [r w'] eqn:E. simpl in H. subst r.
    apply recommend_200_candidates in E.
    destruct E as (data' & qvec' & rows & cands & Hs' & He' & Hm & -> & Hc).
    rewrite Hs in Hs'. injection Hs' as <-.
    rewrite He in He'. injection He' as <-.
    exists rows, cands. split; [exact Hm|]. split; [reflexivity|].
    split.
    + rewrite <- slice_nonneg by assumption. exact Hc.
    + apply (Hcount rows cands Hm). symmetry. eapply Forall2_length; eauto.
  - intros Hr.
    destruct (match_movies_Ok (table w) qvec (topN_of data + offset_of data)
                (threshold_of data)) as [rows Hm]; [lia|].
    rewrite (recommend_plain _ _ _ _ _ Hs Hr He Hp Hm).
    eexists. split; [reflexivity|].
    intros Hfew.
    pose proof (Hcount rows
                  (map project
                     (slice rows (offset_of data) (offset_of data + topN_of data)))
                  Hm (length_map _ _)) as Hl.
    destruct (map project _); [reflexivity|]. simpl in Hl. lia.
Qed.

(** C3.  Every candidate a retrieval call returns has a score at or above
    the call's threshold: the SQL function filters on it and the window
    only removes rows. *)
Theorem returned_scores_reach_threshold
        (req_body resp : json) (data : RecommendBody) (w w' : World) :
  RecommendBodySchema req_body = Some data ->
  recommend req_body w = (R200 resp, w') ->
  exists cands,
    resp = results cands /\
    Forall (fun c => exists s, candidate_score c = Some s /\ threshold_of data <= s)
           cands.
Proof.
  intros Hs H. apply recommend_200_candidates in H.
  destruct H as (data' & qvec & rows & cands & Hs' & _ & Hm & -> & Hc).
  rewrite Hs in Hs'. injection Hs' as <-.
  exists cands. split; [reflexivity|].
  apply match_movies_threshold in Hm.
  apply (slice_Forall _ _ (offset_of data) (offset_of data + topN_of data)) in Hm.
  rename Hm into Hsl.
  induction Hc as [|r c l l' Hrc Hl IH]; constructor.
  - exists (r_score r). split; [eapply candidate_of_score; eauto|].
    now inversion Hsl.
  - apply IH. now inversion Hsl.
Qed.

(** C4.  The candidates a retrieval call returns are in non-increasing
    order of score: the SQL function orders by ascending distance and the
    window keeps that order. *)
Theorem returned_scores_non_increasing
        (req_body resp : json) (w w' : World) :
  recommend req_body w = (R200 resp, w') ->
  exists cands,
    resp = results cands /\
    forall i j ci cj, (i <= j)%nat ->
      nth_error cands i = Some ci ->
      nth_error cands j = Some cj ->
      exists si sj,
        candidate_score ci = Some si /\ candidate_score cj = Some sj /\ sj <= si.
Proof.
  intros H. apply recommend_200_candidates in H.
  destruct H as (data & qvec & rows & cands & _ & _ & Hm & -> & Hc).
  exists cands. split; [reflexivity|].
  apply match_movies_sorted in Hm.
  apply (slice_StronglySorted _ _ (offset_of data) (offset_of data + topN_of data))
    in Hm.
  rename Hm into Hsl.
  intros i j ci cj Hij Hi Hj.
  destruct (Forall2_nth_error _ _ _ Hc i ci Hi) as (ri & Hri & Hci).
  destruct (Forall2_nth_error _ _ _ Hc j cj Hj) as (rj & Hrj & Hcj).
  exists (r_score ri), (r_score rj).
  split; [eapply candidate_of_score; eauto|].
  split; [eapply candidate_of_score; eauto|].
  destruct (Nat.eq_dec i j) as [->|Hne].
  - rewrite Hri in Hrj. injection Hrj as <-. apply Qle_refl.
  - apply (StronglySorted_nth_error _ _ Hsl i j ri rj); [lia | assumption | assumption].
Qed.

(** C9.  The fields of a returned candidate depend on the rerank flag.
    Without rerank a candidate has exactly id, title, year, genres, score,
    why and metadata, and no plot; with rerank it has every field the
    store returned for the row, plot included, followed by the merged why. *)
Theorem candidate_fields_follow_rerank
        (req_body resp : json) (data : RecommendBody) (w w' : World) :
  RecommendBodySchema req_body = Some data ->
  recommend req_body w = (R200 resp, w') ->
  exists qvec rows cands,
    match_movies (table w) qvec (topN_of data + offset_of data) (threshold_of data)
    = Ok rows /\
    resp = results cands /\
    Forall2
      (fun r c =>
         exists o, c = JObj o /\
           if rerank_of data
           then keys o = ["id"; "title"; "year"; "genres"; "plot"; "metadata";
                          "score"; "why"] /\
                (exists why, o = (object_of_match r ++ [("why", why)])%list) /\
                get "plot" o = Some (JStr (r_plot r))
           else keys o = ["id"; "title"; "year"; "genres"; "score"; "why";
                          "metadata"] /\
                get "plot" o = None /\
                get "why" o = Some JNull)
      (slice rows (offset_of data) (offset_of data + topN_of data)) cands.
Proof.
  intros Hs H. apply recommend_200_candidates in H.
  destruct H as (data' & qvec & rows & cands & Hs' & _ & Hm & -> & Hc).
  rewrite Hs in Hs'. injection Hs' as <-.
  exists qvec, rows, cands. split; [exact Hm|]. split; [reflexivity|].
  eapply Forall2_impl; [|exact Hc].
  intros r c. unfold candidate_of.
  destruct (rerank_of data).
  - intros [why ->]. exists (annotate r why).
    split; [reflexivity|]. split; [reflexivity|]. split; [|reflexivity].
    exists why. reflexivity.
  - intros ->. eexists. split; [reflexivity|]. repeat split.
Qed.

(** ** The ingest handler *)

Lemma embed_calls_no_store_call (movies : list Movie) :
  filter is_store_call (embed_calls movies) = [].
Proof. induction movies; simpl; auto. Qed.

(** The loop either runs to its end or stops at the first record the
    provider rejects. *)
Lemma embed_rows_run (movies : list Movie) (rows : list Row) (w : World) :
  (exists out,
      embed_rows movies rows w
      = (Ok out, {| table := table w;
                    calls := (calls w ++ embed_calls movies)%list |}) /\
      Forall (fun m => exists v, embed_content (movieTextForEmbedding m) = Ok v) movies /\
      (Forall (fun r => row_id r = None) rows ->
       Forall (fun r => row_id r = None) out) /\
      length out = (length rows + length movies)%nat)
  \/
  (exists done m e rest,
      movies = (done ++ m :: rest)%list /\
      Forall (fun m => exists v, embed_content (movieTextForEmbedding m) = Ok v) done /\
      embed_content (movieTextForEmbedding m) = Throw e /\
      embed_rows movies rows w
      = (Throw e, {| table := table w;
                     calls := (calls w ++ embed_calls (done ++ [m]))%list |})).
Proof.
  revert rows w. induction movies as [|m0 rest IH]; intros rows w.
  - left. exists rows. simpl. unfold ret. rewrite app_nil_r.
    destruct w. repeat split; auto.
  - simpl. unfold mbind, embed.
    destruct (embed_content (movieTextForEmbedding m0)) as [v|e] eqn:E0.
    + destruct (IH (rows ++ [row_of_movie m0 v])%list
                   (record_call (CallEmbed (movieTextForEmbedding m0)) w))
        as [(out & Hrun & Hok & Hid & Hlen)
           |(done & m & e & rest' & Hsplit & Hok & Hfail & Hrun)].
      * left. exists out. rewrite Hrun. cbn [table record_call calls].
        rewrite <- app_assoc. repeat split.
        -- constructor; eauto.
        -- intros Hrows. apply Hid, Forall_app. split; [assumption|].
           constructor; [reflexivity | constructor].
        -- rewrite Hlen, length_app. simpl. lia.
      * right. exists (m0 :: done), m, e, rest'. rewrite Hrun.
        cbn [table record_call calls]. rewrite <- app_assoc.
        repeat split; auto.
        -- simpl. now rewrite Hsplit.
        -- constructor; eauto.
    + right. exists [], m0, e, rest. repeat split; auto.
Qed.

(** C6.  When the embedding provider fails for any record of an ingestion
    batch, the call answers with one failure (status 500, the provider's
    message for the first record it rejects).  The table is unchanged and
    the calls made are one embedding call for each record up to that one:
    no call to the store, no second attempt. *)
Theorem ingest_embedding_failure_aborts
        (req_body : json) (movies : list Movie) (m : Movie) (e : string) (w : World) :
  IngestBodySchema req_body = Some movies ->
  In m movies ->
  embed_content (movieTextForEmbedding m) = Throw e ->
  exists done m' e' rest,
    movies = (done ++ m' :: rest)%list /\
    embed_content (movieTextForEmbedding m') = Throw e' /\
    ingest_movies req_body w
    = (R500 e',
       {| table := table w;
          calls := (calls w ++ embed_calls (done ++ [m']))%list |}) /\
    filter is_store_call (calls (snd (ingest_movies req_body w)))
    = filter is_store_call (calls w).
Proof.
  intros Hs Hin He.
  destruct (embed_rows_run movies [] w)
    as [(out & _ & Hok & _)|(done & m' & e' & rest & Hsplit & _ & Hfail & Hrun)].
  - rewrite Forall_forall in Hok. destruct (Hok m Hin) as [v Hv]. congruence.
  - exists done, m', e', rest. split; [exact Hsplit|]. split; [exact Hfail|].
    assert (Hres : ingest_movies req_body w
                   = (R500 e',
                      {| table := table w;
                         calls := (calls w ++ embed_calls (done ++ [m']))%list |})).
    { unfold ingest_movies. rewrite Hs. unfold respond, mbind. now rewrite Hrun. }
    split; [exact Hres|].
    rewrite Hres. cbn [snd calls].
    now rewrite filter_app, embed_calls_no_store_call, app_nil_r.
Qed.

Lemma upsert_new_rows (rows : list Row) (t : Table) :
  Forall (fun r => row_id r = None) rows ->
  length (records (fst (upsert t rows))) = (length (records t) + length rows)%nat.
Proof.
  intros H. revert t. induction H as [|r rows Hr Hrows IH]; intros t; simpl.
  - lia.
  - unfold upsert_row. rewrite Hr.
    specialize (IH {| records := (records t
                                   ++ [record_of_row (next_uuid t) r])%list;
                      next_uuid := S (next_uuid t) |}).
    destruct (upsert _ rows) as [t2 data]. simpl in *.
    rewrite IH, length_app. simpl. lia.
Qed.

(** A successful ingest makes the table longer by the size of the batch,
    whatever the batch and the table hold: no record is ever replaced. *)
Lemma ingest_always_inserts
      (req_body resp : json) (movies : list Movie) (w w' : World) :
  IngestBodySchema req_body = Some movies ->
  ingest_movies req_body w = (R200 resp, w') ->
  length (records (table w')) = (length (records (table w)) + length movies)%nat.
Proof.
  intros Hs. unfold ingest_movies. rewrite Hs.
  unfold respond, mbind, supabase_upsert, ret.
  destruct (embed_rows_run movies [] w)
    as [(rows & Hrun & _ & Hid & Hlen)|(done & m & e & rest & _ & _ & _ & Hrun)];
    rewrite Hrun; [|discriminate].
  destruct (upsert_error rows); [discriminate|].
  cbn [table record_call].
  pose proof (upsert_new_rows rows (table w) (Hid (Forall_nil _))) as Hup.
  destruct (upsert (table w) rows) as [t data]. simpl in Hup.
  intros H. injection H as _ <-. simpl. rewrite Hup, Hlen. reflexivity.
Qed.

(** The store itself replaces on a known identifier; the handler never
    gives it one. *)
Lemma upsert_row_replaces (t : Table) (r : Row) (i : uuid) :
  row_id r = Some i ->
  has_id i (records t) = true ->
  length (records (fst (upsert_row t r))) = length (records t).
Proof.
  intros Hr Hi. unfold upsert_row. rewrite Hr, Hi. simpl.
  unfold replace_record. apply length_map.
Qed.

Lemma row_of_movie_no_id (m : Movie) (vector : Vec) :
  row_id (row_of_movie m vector) = None.
Proof. reflexivity. Qed.

(** ** The canonical text *)

(** The metadata line closes the canonical text of every record. *)
Lemma metadata_line_unconditional (m : Movie) :
  exists lines,
    movieTextForEmbedding m
    = String.concat nl
        (lines
         ++ [("Metadata: "
              ++ JSON_stringify Number_toString (JObj (m_metadata m)))%string])%list.
Proof.
  unfold movieTextForEmbedding, filter_Boolean.
  match goal with
  | |- context [filter nonempty [?a; ?b; ?c; ?d; ?e; ?f]] =>
      exists (filter nonempty [a; b; c; d; e]);
      change [a; b; c; d; e; f] with ([a; b; c; d; e] ++ [f])%list
  end.
  rewrite filter_app. reflexivity.
Qed.

(** C8.  The canonical text of a record whose metadata mapping is empty:
    the source tests the mapping for truthiness, which an empty object
    passes, so the text carries the line [Metadata: {}]. *)
Theorem empty_metadata_still_serialized :
  exists m,
    MovieSchema (JObj [("title", JStr "Inception")]) = Some m /\
    m_metadata m = [] /\
    movieTextForEmbedding m = "Title: Inception" ++ nl ++ "Metadata: {}".
Proof.
  eexists. split; [reflexivity|]. split; reflexivity.
Qed.

(** ** Rerank: what happens to the model's answer *)

Lemma withReason_no_entries (sliced : list Match) :
  withReason (JArr []) sliced = Ok (map (fun r => annotate r JNull) sliced).
Proof.
  unfold withReason. induction sliced as [|r rest IH]; simpl; [reflexivity|].
  rewrite IH. reflexivity.
Qed.

(** A text that [JSON.parse] rejects leaves every candidate without reason. *)
Lemma parse_failure_tolerated (text : string) (sliced : list Match) :
  JSON_parse (if nonempty text then text else "[]") = None ->
  withReason (parse_reranked text) sliced
  = Ok (map (fun r => annotate r JNull) sliced).
Proof.
  intros H. unfold parse_reranked. rewrite H. apply withReason_no_entries.
Qed.

(** A text that parses to anything but an array makes the merge throw as
    soon as there is a candidate. *)
Lemma not_a_list_throws (reranked : json) (r : Match) (sliced : list Match) :
  (forall entries, reranked <> JArr entries) ->
  withReason reranked (r :: sliced) = Throw "reranked.find is not a function".
Proof.
  intros H. unfold withReason. simpl. unfold with_reason, find.
  destruct reranked; try reflexivity. now destruct (H items).
Qed.

(** An entry that is [null] makes the merge throw as well. *)
Lemma null_entry_throws (entries : list json) (r : Match) (sliced : list Match) :
  withReason (JArr (JNull :: entries)) (r :: sliced)
  = Throw "Cannot read properties of null (reading 'title')".
Proof. reflexivity. Qed.

Lemma recommend_reranked (req_body : json) (data : RecommendBody) (qvec : Vec)
      (rows : list Match) (text : string) (w : World) :
  RecommendBodySchema req_body = Some data ->
  rerank_of data = true ->
  embed_content (joinAnswers (answers data)) = Ok qvec ->
  rpc_error qvec (match_count_of data) (threshold_of data) = None ->
  match_movies (table w) qvec (match_count_of data) (threshold_of data) = Ok rows ->
  generateContent
    (rerankPrompt (joinAnswers (answers data))
       (slice rows (offset_of data) (offset_of data + topN_of data))) = Ok text ->
  fst (recommend req_body w)
  = match withReason (parse_reranked text)
            (slice rows (offset_of data) (offset_of data + topN_of data)) with
    | Ok out => R200 (results (map JObj out))
    | Throw e => R500 e
    end.
Proof.
  intros Hs Hr He Hp Hm Hg. unfold recommend. rewrite Hs.
  unfold respond, mbind, await, embed, generate_text, supabase_rpc_match_movies, ret.
  rewrite He, Hp. cbn [table record_call]. rewrite Hm, Hr. simpl. rewrite Hg.
  destruct (withReason _ _); reflexivity.
Qed.

(** X18.  An answer of the reasoning model that [JSON.parse] rejects: the
    request succeeds and no candidate has a reason. *)
Lemma unparsable_answer_degrades (req_body : json) (data : RecommendBody) (qvec : Vec)
      (rows : list Match) (text : string) (w : World) :
  RecommendBodySchema req_body = Some data ->
  rerank_of data = true ->
  embed_content (joinAnswers (answers data)) = Ok qvec ->
  rpc_error qvec (match_count_of data) (threshold_of data) = None ->
  match_movies (table w) qvec (match_count_of data) (threshold_of data) = Ok rows ->
  generateContent
    (rerankPrompt (joinAnswers (answers data))
       (slice rows (offset_of data) (offset_of data + topN_of data))) = Ok text ->
  JSON_parse (if nonempty text then text else "[]") = None ->
  fst (recommend req_body w)
  = R200 (results
            (map JObj
               (map (fun r => annotate r JNull)
                  (slice rows (offset_of data) (offset_of data + topN_of data))))).
Proof.
  intros Hs Hr He Hp Hm Hg Hj.
  rewrite (recommend_reranked _ _ _ _ _ _ Hs Hr He Hp Hm Hg).
  now rewrite parse_failure_tolerated.
Qed.

(** An answer that parses, but not to an array: with a candidate in the
    window the request fails. *)
Lemma non_list_answer_fails (req_body : json) (data : RecommendBody) (qvec : Vec)
      (rows : list Match) (text : string) (v : json) (r : Match) (rest : list Match)
      (w : World) :
  RecommendBodySchema req_body = Some data ->
  rerank_of data = true ->
  embed_content (joinAnswers (answers data)) = Ok qvec ->
  rpc_error qvec (match_count_of data) (threshold_of data) = None ->
  match_movies (table w) qvec (match_count_of data) (threshold_of data) = Ok rows ->
  slice rows (offset_of data) (offset_of data + topN_of data) = r :: rest ->
  generateContent (rerankPrompt (joinAnswers (answers data)) (r :: rest)) = Ok text ->
  JSON_parse (if nonempty text then text else "[]") = Some v ->
  (forall entries, v <> JArr entries) ->
  fst (recommend req_body w) = R500 "reranked.find is not a function".
Proof.
  intros Hs Hr He Hp Hm Hsl Hg Hj Hv.
  rewrite <- Hsl in Hg.
  rewrite (recommend_reranked _ _ _ _ _ _ Hs Hr He Hp Hm Hg), Hsl.
  unfold parse_reranked. rewrite Hj.
  now rewrite not_a_list_throws.
Qed.

(** * Further properties of the handlers *)

(** ** Validation *)

Lemma get_without_key (k k' : string) (o : obj) :
  String.eqb k k' = false -> get k' (without_key k o) = get k' o.
Proof.
  intros Hk. induction o as [|[k0 v0] o IH]; simpl; [reflexivity|].
  destruct (String.eqb k k0) eqn:E0; simpl.
  - apply String.eqb_eq in E0. subst k0.
    rewrite String.eqb_sym, Hk. exact IH.
  - destruct (String.eqb k' k0); [reflexivity | exact IH].
Qed.

(** X1.  [z.object] strips the keys the schema does not declare: a movie with
    such a key (an [id], say) parses as the movie without it. *)
Theorem MovieSchema_strips_undeclared_key (k : string) (o : obj) :
  declared_movie_key k = false ->
  MovieSchema (JObj o) = MovieSchema (JObj (without_key k o)).
Proof.
  unfold declared_movie_key. simpl. intros H.
  repeat (apply orb_false_iff in H; destruct H as [? H]).
  unfold MovieSchema.
  rewrite !(get_without_key k) by assumption. reflexivity.
Qed.

Lemma z_optional_number_between (v : option json) (t : Q) :
  z_optional
    (fun v => q <-? z_number v ;; z_check (fun q => Qle_bool 0 q && Qle_bool q 1) q) v
  = Some (Some t) ->
  0 <= t /\ t <= 1.
Proof.
  destruct v as [x|]; simpl; [|discriminate].
  intros H. apply obind_Some in H. destruct H as [a [H Ha]].
  injection Ha as ->.
  apply obind_Some in H. destruct H as [q [_ H]].
  unfold z_check in H.
  destruct (Qle_bool 0 q && Qle_bool q 1) eqn:E; [|discriminate].
  injection H as <-. apply andb_true_iff in E. destruct E as [E1 E2].
  split; now apply Qle_bool_iff.
Qed.

(** X3.  What a validated recommend request holds: one to ten answers, [topN]
    in 1..50, [offset] in 0..500 and [threshold] in [0, 1] when given. *)
Theorem RecommendBodySchema_ranges (req_body : json) (data : RecommendBody) :
  RecommendBodySchema req_body = Some data ->
  (1 <= length (answers data) <= 10)%nat /\
  (forall n, topN data = Some n -> (1 <= n <= 50)%Z) /\
  (forall k, offset data = Some k -> (0 <= k <= 500)%Z) /\
  (forall t, threshold data = Some t -> 0 <= t /\ t <= 1).
Proof.
  intros Hs.
  destruct (RecommendBodySchema_bounds _ _ Hs) as (Hn & Hk & Ha).
  split; [exact Ha|]. split; [exact Hn|]. split; [exact Hk|].
  unfold RecommendBodySchema in Hs.
  destruct req_body as [| | | | |o]; try discriminate.
  apply obind_Some in Hs. destruct Hs as [a0 [_ H]].
  apply obind_Some in H. destruct H as [a [_ H]].
  apply obind_Some in H. destruct H as [n [_ H]].
  apply obind_Some in H. destruct H as [k [_ H]].
  apply obind_Some in H. destruct H as [t [Ht H]].
  apply obind_Some in H. destruct H as [r [_ H]].
  injection H as <-. simpl.
  intros t' ->. now apply z_optional_number_between in Ht.
Qed.

Lemma z_strings_length (items : list json) (l : list string) :
  z_strings items = Some l -> length l = length items.
Proof.
  revert l. induction items as [|v items IH]; simpl; intros l H.
  - now injection H as <-.
  - apply obind_Some in H. destruct H as [s0 [_ H]].
    apply obind_Some in H. destruct H as [ss [Hss H]].
    injection H as <-. simpl. f_equal. now apply IH.
Qed.

(** X4.  A recommend request with no answer, or with more than ten, is answered
    400 and nothing is called. *)
Theorem recommend_rejects_answer_count (o : obj) (items : list json) (w : World) :
  get "answers" o = Some (JArr items) ->
  (length items = 0 \/ 10 < length items)%nat ->
  recommend (JObj o) w = (R400, w).
Proof.
  intros Hget Hlen. unfold recommend.
  replace (RecommendBodySchema (JObj o)) with (@None RecommendBody); [reflexivity|].
  symmetry. unfold RecommendBodySchema. rewrite Hget. simpl.
  destruct (z_strings items) as [l|] eqn:El; simpl; [|reflexivity].
  apply z_strings_length in El.
  unfold z_check.
  match goal with
  | |- context [if ?c then Some l else None] =>
      assert (Hc : c = false); [|rewrite Hc; reflexivity]
  end.
  apply andb_false_iff. rewrite El.
  destruct Hlen as [H0|H10].
  - left. rewrite H0. reflexivity.
  - right. apply Nat.leb_gt. exact H10.
Qed.

(** X5.  A recommend request whose [topN] is a number, but not an integer in
    1..50, is answered 400 and nothing is called. *)
Theorem recommend_rejects_topN (o : obj) (q : Q) (w : World) :
  get "topN" o = Some (JNum q) ->
  Number_isInteger q = false \/ (int_value q < 1)%Z \/ (50 < int_value q)%Z ->
  recommend (JObj o) w = (R400, w).
Proof.
  intros Hget Hbad. unfold recommend.
  replace (RecommendBodySchema (JObj o)) with (@None RecommendBody); [reflexivity|].
  symmetry. unfold RecommendBodySchema.
  destruct (z_required z_array_string (get "answers" o)); simpl; [|reflexivity].
  destruct (z_check _ l); simpl; [|reflexivity].
  rewrite Hget. simpl. unfold z_number_int. simpl.
  destruct (Number_isInteger q) eqn:Ei; simpl.
  - unfold z_check, between.
    match goal with
    | |- context [if ?c then Some (int_value q) else None] =>
        assert (Hc : c = false); [|rewrite Hc; reflexivity]
    end.
    apply andb_false_iff.
    destruct Hbad as [H|[H|H]]; [discriminate | left | right].
    + now apply Z.leb_gt.
    + now apply Z.leb_gt.
  - reflexivity.
Qed.

Lemma MovieSchemas_In (items : list json) (bad : json) :
  In bad items -> MovieSchema bad = None -> MovieSchemas items = None.
Proof.
  intros Hin Hbad. induction items as [|v items IH]; [contradiction|].
  simpl. destruct Hin as [->|Hin].
  - now rewrite Hbad.
  - destruct (MovieSchema v); simpl; [|reflexivity]. now rewrite (IH Hin).
Qed.

(** X6.  An ingestion batch that is empty, or in which one movie fails the
    schema, is rejected whole: the answer is 400 and nothing is called. *)
Theorem ingest_rejects_invalid_batch (o : obj) (items : list json) (w : World) :
  get "movies" o = Some (JArr items) ->
  items = [] \/ (exists bad, In bad items /\ MovieSchema bad = None) ->
  ingest_movies (JObj o) w = (R400, w).
Proof.
  intros Hget Hbad. unfold ingest_movies.
  replace (IngestBodySchema (JObj o)) with (@None (list Movie)); [reflexivity|].
  symmetry. unfold IngestBodySchema. rewrite Hget.
  destruct Hbad as [->|(bad & Hin & Hnone)].
  - reflexivity.
  - now rewrite (MovieSchemas_In items bad Hin Hnone).
Qed.

(** ** Ingestion *)

Lemma embed_rows_all (movies : list Movie) (rows : list Row) (w : World) :
  Forall (fun m => exists v, embed_content (movieTextForEmbedding m) = Ok v) movies ->
  embed_rows movies rows w
  = (Ok (rows ++ rows_for movies)%list,
     {| table := table w; calls := (calls w ++ embed_calls movies)%list |}).
Proof.
  intros H. revert rows w. induction H as [|m rest [v Hv] Hrest IH]; intros rows w.
  - simpl. unfold ret. rewrite !app_nil_r. now destruct w.
  - simpl. unfold mbind, embed. rewrite Hv. rewrite IH.
    cbn [table record_call calls]. unfold vector_of. rewrite Hv.
    now rewrite <- !app_assoc.
Qed.

Lemma rows_for_no_id (movies : list Movie) :
  Forall (fun r => row_id r = None) (rows_for movies).
Proof. induction movies; simpl; constructor; auto. Qed.

Lemma upsert_fresh (rows : list Row) (t : Table) :
  Forall (fun r => row_id r = None) rows ->
  upsert t rows
  = ({| records := (records t ++ fresh_records (next_uuid t) rows)%list;
        next_uuid := (next_uuid t + length rows)%nat |},
     map (fun m => (id m, title m)) (fresh_records (next_uuid t) rows)).
Proof.
  intros H. revert t. induction H as [|r rows Hr Hrows IH]; intros t.
  - simpl. rewrite app_nil_r, Nat.add_0_r. now destruct t.
  - simpl. unfold upsert_row. rewrite Hr. rewrite IH. simpl.
    unfold fresh_records. simpl.
    rewrite <- app_assoc. simpl. repeat f_equal. lia.
Qed.

Lemma fresh_records_ids (next : uuid) (rows : list Row) :
  map id (fresh_records next rows) = seq next (length rows).
Proof.
  unfold fresh_records. revert next.
  induction rows as [|r rows IH]; intros next; simpl; [reflexivity|].
  now rewrite IH.
Qed.

Lemma fresh_records_length (next : uuid) (rows : list Row) :
  length (fresh_records next rows) = length rows.
Proof. now rewrite <- (length_map id), fresh_records_ids, length_seq. Qed.

(** X7.  An ingestion in which every record embeds and the store accepts the
    batch: one embedding call per record, in order, then one upsert of all
    the rows.  The answer counts the batch and lists identifiers the
    store generated, one per record; the table keeps its records and
    gains one per row, in the order of the batch. *)
Theorem ingest_success (req_body : json) (movies : list Movie) (w : World) :
  IngestBodySchema req_body = Some movies ->
  Forall (fun m => exists v, embed_content (movieTextForEmbedding m) = Ok v) movies ->
  upsert_error (rows_for movies) = None ->
  ingest_movies req_body w
  = (R200 (JObj [ ("inserted", JNum (inject_Z (Z.of_nat (length movies))));
                  ("ids", JArr (map json_of_uuid
                                  (seq (next_uuid (table w)) (length movies)))) ]),
     {| table :=
          {| records := (records (table w)
                         ++ fresh_records (next_uuid (table w)) (rows_for movies))%list;
             next_uuid := (next_uuid (table w) + length movies)%nat |};
        calls := (calls w ++ embed_calls movies
                  ++ [CallUpsert (rows_for movies)])%list |}).
Proof.
  intros Hs Hok Hup. unfold ingest_movies. rewrite Hs.
  unfold respond, mbind, supabase_upsert, ret.
  rewrite (embed_rows_all movies [] w Hok). cbn [app].
  rewrite Hup. cbn [table record_call calls].
  rewrite (upsert_fresh _ _ (rows_for_no_id movies)).
  rewrite length_map, fresh_records_length.
  rewrite map_map. cbn [fst].
  rewrite <- (map_map id json_of_uuid), fresh_records_ids.
  assert (Hlen : length (rows_for movies) = length movies)
    by (unfold rows_for; apply length_map).
  rewrite !Hlen. now rewrite <- app_assoc.
Qed.

(** X8.  When the store refuses the batch, the answer is 500 with the store's
    message and the table is as before: only the upsert was attempted. *)
Theorem ingest_store_failure (req_body : json) (movies : list Movie) (e : string)
        (w : World) :
  IngestBodySchema req_body = Some movies ->
  Forall (fun m => exists v, embed_content (movieTextForEmbedding m) = Ok v) movies ->
  upsert_error (rows_for movies) = Some e ->
  ingest_movies req_body w
  = (R500 e,
     {| table := table w;
        calls := (calls w ++ embed_calls movies
                  ++ [CallUpsert (rows_for movies)])%list |}).
Proof.
  intros Hs Hok Hup. unfold ingest_movies. rewrite Hs.
  unfold respond, mbind, supabase_upsert, ret.
  rewrite (embed_rows_all movies [] w Hok). cbn [app].
  rewrite Hup. unfold record_call. cbn [table calls].
  now rewrite <- app_assoc.
Qed.

Lemma ingest_table (req_body : json) (w : World) :
  table (snd (ingest_movies req_body w)) = table w \/
  exists rows,
    Forall (fun r => row_id r = None) rows /\
    table (snd (ingest_movies req_body w))
    = {| records := (records (table w) ++ fresh_records (next_uuid (table w)) rows)%list;
         next_uuid := (next_uuid (table w) + length rows)%nat |}.
Proof.
  unfold ingest_movies.
  destruct (IngestBodySchema req_body) as [movies|]; [|left; reflexivity].
  unfold respond, mbind, supabase_upsert, ret.
  destruct (embed_rows_run movies [] w)
    as [(rows & Hrun & _ & Hid & _)|(done & m & e & rest & _ & _ & _ & Hrun)];
    rewrite Hrun; [|left; reflexivity].
  destruct (upsert_error rows); [left; reflexivity|].
  cbn [table record_call calls].
  rewrite (upsert_fresh _ _ (Hid (Forall_nil _))).
  right. exists rows. split; [exact (Hid (Forall_nil _)) | reflexivity].
Qed.

(** X9.  Ingestion keeps identifiers unique: whatever the request and however
    the call ends, a table whose identifiers are unique and below the next
    generated one stays so. *)
Theorem ingest_keeps_unique_ids (req_body : json) (w : World) :
  unique_ids (table w) -> unique_ids (table (snd (ingest_movies req_body w))).
Proof.
  intros [Hnd Hlt].
  destruct (ingest_table req_body w) as [->|(rows & _ & ->)]; [split; assumption|].
  unfold unique_ids. cbn [records next_uuid]. split.
  - rewrite map_app, fresh_records_ids.
    apply NoDup_app; [exact Hnd | apply seq_NoDup |].
    intros i Hi Hseq. apply in_seq in Hseq.
    apply in_map_iff in Hi. destruct Hi as (m & <- & Hm).
    rewrite Forall_forall in Hlt. specialize (Hlt m Hm). lia.
  - apply Forall_app. split.
    + eapply Forall_impl; [|exact Hlt]. intros m Hm. simpl in Hm. lia.
    + rewrite Forall_forall. intros m Hm.
      assert (Hid : In (id m) (seq (next_uuid (table w)) (length rows))).
      { rewrite <- fresh_records_ids. now apply in_map. }
      apply in_seq in Hid. lia.
Qed.

(** ** Retrieval: failures and effects *)

(** X12.  Retrieval never writes: whatever the request and however the call
    ends, the table is as before. *)
Theorem recommend_never_writes (req_body : json) (w : World) :
  table (snd (recommend req_body w)) = table w.
Proof.
  unfold recommend.
  destruct (RecommendBodySchema req_body) as [data|]; [|reflexivity].
  unfold respond, mbind, await, embed, generate_text, supabase_rpc_match_movies, ret.
  destruct (embed_content _); [|reflexivity].
  destruct (rpc_error _ _ _); [reflexivity|].
  cbn [table record_call calls].
  destruct (match_movies _ _ _ _); [|reflexivity].
  destruct (rerank_of data); cbn [negb]; [|reflexivity].
  destruct (generateContent _); [|reflexivity].
  destruct (withReason _ _); reflexivity.
Qed.

(** X13.  When the embedding of the profile fails, the answer is 500 with the
    provider's message; the store and the reasoning model are not called. *)
Theorem recommend_embedding_failure (req_body : json) (data : RecommendBody)
        (e : string) (w : World) :
  RecommendBodySchema req_body = Some data ->
  embed_content (joinAnswers (answers data)) = Throw e ->
  recommend req_body w
  = (R500 e,
     {| table := table w;
        calls := (calls w ++ [CallEmbed (joinAnswers (answers data))])%list |}).
Proof.
  intros Hs He. unfold recommend. rewrite Hs.
  unfold respond, mbind, embed. now rewrite He.
Qed.

(** X14.  When the store call fails, the answer is 500 with the store's message,
    whether rerank was asked or not; the reasoning model is not called. *)
Theorem recommend_store_failure (req_body : json) (data : RecommendBody)
        (qvec : Vec) (e : string) (w : World) :
  RecommendBodySchema req_body = Some data ->
  embed_content (joinAnswers (answers data)) = Ok qvec ->
  rpc_error qvec (topN_of data + offset_of data) (threshold_of data) = Some e ->
  recommend req_body w
  = (R500 e,
     {| table := table w;
        calls := (calls w
                  ++ [CallEmbed (joinAnswers (answers data));
                      CallMatchMovies qvec (topN_of data + offset_of data)
                        (threshold_of data)])%list |}).
Proof.
  intros Hs He Hp. unfold recommend. rewrite Hs.
  unfold respond, mbind, embed, supabase_rpc_match_movies. rewrite He, Hp.
  unfold record_call. cbn [table calls]. now rewrite <- app_assoc.
Qed.

(** X15.  With rerank, a failure of the reasoning model fails the request: the
    answer is 500 with the model's message, not the candidates without
    reasons. *)
Theorem recommend_reasoning_failure (req_body : json) (data : RecommendBody)
        (qvec : Vec) (rows : list Match) (e : string) (w : World) :
  RecommendBodySchema req_body = Some data ->
  rerank_of data = true ->
  embed_content (joinAnswers (answers data)) = Ok qvec ->
  rpc_error qvec (topN_of data + offset_of data) (threshold_of data) = None ->
  match_movies (table w) qvec (topN_of data + offset_of data) (threshold_of data)
  = Ok rows ->
  generateContent
    (rerankPrompt (joinAnswers (answers data))
       (slice rows (offset_of data) (offset_of data + topN_of data))) = Throw e ->
  fst (recommend req_body w) = R500 e.
Proof.
  intros Hs Hr He Hp Hm Hg. unfold recommend. rewrite Hs.
  unfold respond, mbind, await, embed, generate_text, supabase_rpc_match_movies, ret.
  rewrite He, Hp. cbn [table record_call]. rewrite Hm, Hr. simpl. now rewrite Hg.
Qed.

(** X16.  The calls of a successful retrieval: one embedding call for the
    profile, one store query, and with rerank one call to the reasoning
    model, whose prompt is built from the same profile and the window;
    without rerank the reasoning model is not called. *)
Theorem recommend_calls_on_success (req_body resp : json) (w w' : World) :
  recommend req_body w = (R200 resp, w') ->
  exists data qvec rows,
    RecommendBodySchema req_body = Some data /\
    embed_content (joinAnswers (answers data)) = Ok qvec /\
    match_movies (table w) qvec (topN_of data + offset_of data) (threshold_of data)
    = Ok rows /\
    calls w'
    = (calls w
       ++ CallEmbed (joinAnswers (answers data))
       :: CallMatchMovies qvec (topN_of data + offset_of data) (threshold_of data)
       :: (if rerank_of data
           then [CallGenerate
                   (rerankPrompt (joinAnswers (answers data))
                      (slice rows (offset_of data) (offset_of data + topN_of data)))]
           else []))%list.
Proof.
  unfold recommend.
  destruct (RecommendBodySchema req_body) as [data|]; [|discriminate].
  unfold respond, mbind, await, embed, generate_text, supabase_rpc_match_movies, ret.
  destruct (embed_content (joinAnswers (answers data))) as [qvec|e] eqn:Eq;
    [|discriminate].
  destruct (rpc_error qvec (match_count_of data) (threshold_of data)) as [e|] eqn:Er;
    [discriminate|].
  cbn [table record_call calls].
  destruct (match_movies (table w) qvec (match_count_of data) (threshold_of data))
    as [rows|e] eqn:Em; [|discriminate].
  intros H. exists data, qvec, rows.
  repeat (split; [solve [auto]|]).
  destruct (rerank_of data); simpl in H.
  - destruct (generateContent _) as [text|e]; [|discriminate].
    destruct (withReason _ _) as [out|e]; [|discriminate].
    injection H as _ <-. unfold record_call. cbn [calls].
    now rewrite <- !app_assoc.
  - injection H as _ <-. unfold record_call. cbn [calls].
    now rewrite <- !app_assoc.
Qed.

(** ** The canonical texts *)

Lemma mapi_from_nth_error {A B} (f : A -> Z -> B) (l : list A) (i : Z) (k : nat) :
  nth_error (mapi_from i f l) k
  = option_map (fun a => f a (i + Z.of_nat k)%Z) (nth_error l k).
Proof.
  revert i k. induction l as [|a l IH]; intros i k.
  - destruct k; reflexivity.
  - destruct k as [|k]; simpl.
    + now rewrite Z.add_0_r.
    + rewrite IH. destruct (nth_error l k); simpl; [|reflexivity].
      do 2 f_equal. lia.
Qed.

Lemma mapi_from_length {A B} (f : A -> Z -> B) (l : list A) (i : Z) :
  length (mapi_from i f l) = length l.
Proof. revert i. induction l; intros i; simpl; auto. Qed.

(** X10.  The profile is the two lines of the preamble followed by one line per
    answer, in the order given; the answer at position [k] (from 0) is
    labelled [Q] with the number [k + 1]. *)
Theorem joinAnswers_lines (answers : list string) :
  exists lines,
    joinAnswers answers = String.concat nl lines /\
    length lines = (2 + length answers)%nat /\
    forall k a, nth_error answers k = Some a ->
      nth_error lines (2 + k) = Some (answer_line k a).
Proof.
  unfold joinAnswers. eexists. split; [reflexivity|]. split.
  - simpl. now rewrite mapi_from_length.
  - intros k a Hk. simpl. rewrite mapi_from_nth_error, Hk. reflexivity.
Qed.

(** X11.  The lines of the canonical text: the title line, then the year when
    it is present and not 0, the genres and the cast when they are not
    empty, the plot when it is not empty, and last the metadata line,
    which is always there. *)
Theorem movieText_lines (m : Movie) :
  movieTextForEmbedding m
  = String.concat nl
      (("Title: " ++ m_title m)
       :: (optional_line
             (match m_year m with Some n => negb (n =? 0)%Z | None => false end)
             ("Year: "
              ++ Number_toString
                   (inject_Z (match m_year m with Some n => n | None => 0%Z end)))%string
           ++ optional_line (negb (length (m_genres m) =? 0)%nat)
                ("Genres: " ++ String.concat ", " (m_genres m))%string
           ++ optional_line (negb (length (m_cast m) =? 0)%nat)
                ("Cast: " ++ String.concat ", " (m_cast m))%string
           ++ optional_line (negb (String.eqb (m_plot m) EmptyString))
                ("Plot: " ++ m_plot m)%string
           ++ [("Metadata: "
                ++ JSON_stringify Number_toString (JObj (m_metadata m)))%string])%list).
Proof.
  unfold movieTextForEmbedding, filter_Boolean, number_truthy.
  destruct m as [title [n|] genres cast plot metadata]; cbn [m_title m_year m_genres
    m_cast m_plot m_metadata];
    try destruct (n =? 0)%Z;
    destruct genres; destruct cast; destruct plot; reflexivity.
Qed.

(** ** The SQL function: what is returned *)

Lemma StronglySorted_app_inv {A} (R : A -> A -> Prop) (l1 l2 : list A) :
  StronglySorted R (l1 ++ l2) ->
  forall a b, In a l1 -> In b l2 -> R a b.
Proof.
  induction l1 as [|x l1 IH]; simpl; intros H a b Ha Hb; [contradiction|].
  apply StronglySorted_inv in H. destruct H as [Hs Hx].
  destruct Ha as [->|Ha].
  - rewrite Forall_forall in Hx. apply Hx, in_or_app. now right.
  - now apply (IH Hs a b).
Qed.

(** X19.  The rows [match_movies] returns are the best ones: the records at or
    above the threshold split into those returned and those left out, and
    no record left out is more similar to the query than a returned one.
    Records are left out only when the limit is reached. *)
Theorem match_movies_returns_best (t : Table) (q : Vec) (k : Z) (thr : Q)
        (rows : list Match) :
  match_movies t q k thr = Ok rows ->
  exists returned omitted,
    Permutation (filter (where_threshold q thr) (records t)) (returned ++ omitted) /\
    rows = map (select_match q) returned /\
    (omitted <> [] -> length rows = Z.to_nat k) /\
    forall r m, In r returned -> In m omitted -> similarity q m <= similarity q r.
Proof.
  unfold match_movies. destruct (k <? 0)%Z; [discriminate|].
  intros H. injection H as <-.
  set (sorted := order_by_distance q (filter (where_threshold q thr) (records t))).
  exists (firstn (Z.to_nat k) sorted), (skipn (Z.to_nat k) sorted).
  split; [|split; [|split]].
  - rewrite firstn_skipn. apply order_by_distance_perm.
  - now rewrite firstn_map.
  - intros Hom. rewrite length_firstn, length_map.
    destruct (Nat.le_gt_cases (length sorted) (Z.to_nat k)) as [Hle|Hgt]; [|lia].
    exfalso. apply Hom. now apply skipn_all2.
  - intros r m Hr Hm.
    pose proof (order_by_distance_sorted q
                  (filter (where_threshold q thr) (records t))) as Hs.
    fold sorted in Hs. rewrite <- (firstn_skipn (Z.to_nat k) sorted) in Hs.
    pose proof (StronglySorted_app_inv _ _ _ Hs r m Hr Hm) as Hd.
    unfold ascending_distance in Hd. unfold similarity. lra.
Qed.




Lemma filter_keeps_distinct {K R} (key : R -> K) (keep : R -> bool) (rs : list R)
      (Hnd : NoDup (map key rs)) :
  NoDup (map key (filter keep rs)).
Proof.
  induction rs as [|r rs IH]; simpl in *; [constructor|].
  apply NoDup_cons_iff in Hnd. destruct Hnd as [Hfresh Hnd].
  destruct (keep r); simpl; [|now apply IH].
  apply NoDup_cons_iff. split; [|now apply IH].
  intros Hin. apply Hfresh.
  apply in_map_iff in Hin. destruct Hin as (r' & Hkey & Hr').
  apply filter_In in Hr'. apply in_map_iff. exists r'. tauto.
Qed.

Lemma firstn_keeps_distinct {K} (n : nat) (ks : list K) (Hnd : NoDup ks) :
  NoDup (firstn n ks).
Proof.
  revert n. induction Hnd as [|k ks Hfresh Hnd IH]; intros [|n]; simpl;
    try constructor.
  - intros Hin. apply Hfresh.
    rewrite <- (firstn_skipn n ks). apply in_or_app. now left.
  - apply IH.
Qed.

Lemma skipn_keeps_distinct {K} (n : nat) (ks : list K) (Hnd : NoDup ks) :
  NoDup (skipn n ks).
Proof.
  revert n. induction Hnd as [|k ks Hfresh Hnd IH]; intros [|n]; simpl;
    try (constructor; assumption); auto.
Qed.

(** X21.  No row comes back twice: when the identifiers of the table are
    unique, so are those of the rows returned, and of any window of them. *)
Theorem match_movies_no_duplicate (t : Table) (q : Vec) (k : Z) (thr : Q)
        (rows : list Match) (start end_ : Z) :
  NoDup (map id (records t)) ->
  match_movies t q k thr = Ok rows ->
  NoDup (map r_id rows) /\ NoDup (map r_id (slice rows start end_)).
Proof.
  intros Hnd. unfold match_movies. destruct (k <? 0)%Z; [discriminate|].
  intros H. injection H as <-.
  assert (Hall : NoDup (map r_id
                          (map (select_match q)
                             (order_by_distance q
                                (filter (where_threshold q thr) (records t)))))).
  { rewrite map_map. cbn [r_id select_match].
    eapply Permutation_NoDup.
    - apply Permutation_map, order_by_distance_perm.
    - now apply filter_keeps_distinct. }
  assert (Hrows : NoDup (map r_id
                           (firstn (Z.to_nat k)
                              (map (select_match q)
                                 (order_by_distance q
                                    (filter (where_threshold q thr) (records t))))))).
  { rewrite <- firstn_map. now apply firstn_keeps_distinct. }
  split; [exact Hrows|].
  unfold slice. rewrite <- firstn_map, <- skipn_map.
  now apply firstn_keeps_distinct, skipn_keeps_distinct.
Qed.

(** ** Rerank: a readable answer *)

Lemma withReason_readable (entries : list json) (sliced : list Match) :
  Forall (fun x => readable_entry x = true) entries ->
  withReason (JArr entries) sliced
  = Ok (map (fun r =>
               annotate r
                 (reason_or_null
                    (first_with_title (toLowerCase (r_title r)) entries)))
            sliced).
Proof.
  intros Hread. unfold withReason.
  induction sliced as [|r rest IH]; simpl; [reflexivity|].
  unfold with_reason at 1. simpl.
  destruct (Array_find_total r entries Hread) as [found Hfound].
  rewrite Hfound. simpl. rewrite IH. simpl.
  now rewrite (Array_find_first r entries found Hfound).
Qed.

(** X17.  With rerank, when the reasoning model answers a list of readable
    entries, the request succeeds with every candidate of the window, in
    order; a candidate's [why] is the reason of the first entry that has
    its title up to case, and null when there is none or the entry has no
    reason. *)
Theorem recommend_rerank_success (req_body : json) (data : RecommendBody)
        (qvec : Vec) (rows : list Match) (text : string) (entries : list json)
        (w : World) :
  RecommendBodySchema req_body = Some data ->
  rerank_of data = true ->
  embed_content (joinAnswers (answers data)) = Ok qvec ->
  rpc_error qvec (topN_of data + offset_of data) (threshold_of data) = None ->
  match_movies (table w) qvec (topN_of data + offset_of data) (threshold_of data)
  = Ok rows ->
  generateContent
    (rerankPrompt (joinAnswers (answers data))
       (slice rows (offset_of data) (offset_of data + topN_of data))) = Ok text ->
  JSON_parse (if nonempty text then text else "[]") = Some (JArr entries) ->
  Forall (fun x => readable_entry x = true) entries ->
  fst (recommend req_body w)
  = R200 (results
            (map (fun r =>
                    JObj (object_of_match r
                          ++ [("why",
                               reason_or_null
                                 (first_with_title (toLowerCase (r_title r))
                                    entries))])%list)
               (slice rows (offset_of data) (offset_of data + topN_of data)))).
Proof.
  intros Hs Hr He Hp Hm Hg Hj Hread.
  rewrite (recommend_reranked _ _ _ _ _ _ Hs Hr He Hp Hm Hg).
  unfold parse_reranked. rewrite Hj.
  rewrite (withReason_readable entries _ Hread).
  now rewrite map_map.
Qed.

(** ** The movie schema: defaults *)

(** X2.  What a parsed movie holds: the title given, and for each other field
    that the object leaves out its default (no year, no genres, no cast,
    an empty plot, an empty metadata mapping).  An explicit [null] year is
    a validation failure. *)
Theorem MovieSchema_defaults (o : obj) (m : Movie) :
  MovieSchema (JObj o) = Some m ->
  get "title" o = Some (JStr (m_title m)) /\
  (get "year" o = None -> m_year m = None) /\
  (get "genres" o = None -> m_genres m = []) /\
  (get "cast" o = None -> m_cast m = []) /\
  (get "plot" o = None -> m_plot m = EmptyString) /\
  (get "metadata" o = None -> m_metadata m = []) /\
  get "year" o <> Some JNull.
Proof.
  unfold MovieSchema. intros H.
  apply obind_Some in H. destruct H as [title [Ht H]].
  apply obind_Some in H. destruct H as [year [Hy H]].
  apply obind_Some in H. destruct H as [genres [Hg H]].
  apply obind_Some in H. destruct H as [cast [Hc H]].
  apply obind_Some in H. destruct H as [plot [Hp H]].
  apply obind_Some in H. destruct H as [metadata [Hm H]].
  injection H as <-. cbn [m_title m_year m_genres m_cast m_plot m_metadata].
  repeat split.
  - unfold z_required in Ht. destruct (get "title" o) as [[| | |s| |]|];
      try discriminate. simpl in Ht. now injection Ht as ->.
  - intros E. rewrite E in Hy. simpl in Hy. now injection Hy as <-.
  - intros E. rewrite E in Hg. simpl in Hg. now injection Hg as <-.
  - intros E. rewrite E in Hc. simpl in Hc. now injection Hc as <-.
  - intros E. rewrite E in Hp. simpl in Hp. now injection Hp as <-.
  - intros E. rewrite E in Hm. simpl in Hm. now injection Hm as <-.
  - intros E. rewrite E in Hy. discriminate.
Qed.

End Properties.

(** * The handlers on the sample data *)

(** C5.  The reasoning model answers with JSON that is not a list (the
    list wrapped in an object).  Parsing it as the list of
    [{title, reason}] entries fails, and the request fails with it: the
    handler answers 500, where the same request without rerank returns
    three candidates. *)
Theorem answer_not_a_list_fails_request :
  (forall prompt,
      generateContent (Services := wrapped) prompt
      = Ok (JSON_stringify Number_toString_integral (JObj [("ranking", reasons)]))) /\
  JSON_parse_reference
    (JSON_stringify Number_toString_integral (JObj [("ranking", reasons)]))
  = Some (JObj [("ranking", reasons)]) /\
  fst (recommend (env := wrapped) (request [("rerank", JBool true)]) stocked_world)
  = R500 "reranked.find is not a function" /\
  exists cands,
    fst (recommend (env := wrapped) (request []) stocked_world)
    = R200 (JObj [("topN", JArr cands)]) /\
    length cands = 3%nat.
Proof.
  split; [reflexivity|]. split; [vm_compute; reflexivity|].
  split; [vm_compute; reflexivity|].
  eexists. split; [vm_compute; reflexivity | reflexivity].
Qed.

(** The same request when the model answers in prose: [JSON.parse] throws,
    the request succeeds and every [why] is null. *)
Example prose_answer_is_tolerated :
  exists cands,
    fst (recommend (env := chatty) (request [("rerank", JBool true)]) stocked_world)
    = R200 (JObj [("topN", JArr cands)]) /\
    map (fun c => match c with JObj o => get "why" o | _ => None end) cands
    = [Some JNull; Some JNull; Some JNull].
Proof.
  eexists. split; [vm_compute; reflexivity | reflexivity].
Qed.

(** C7.  The store holds a film under identifier 0, and a batch brings the
    film again under that identifier.  The schema drops the [id] key and
    the handler sends the row without one, so the store inserts: after one
    run the table has two records for the film, after two runs three. *)
Theorem reingest_under_prior_id_duplicates :
  map id_and_title (records (table stored)) = [(0%nat, "Inception")] /\
  MovieSchema (with_id "0" inception) = MovieSchema inception /\
  fst (ingest_movies (env := silent) keyed_batch stored)
  = R200 (JObj [("inserted", number 1); ("ids", JArr [JStr "1"])]) /\
  map id_and_title (records (table reingested_once))
  = [(0%nat, "Inception"); (1%nat, "Inception")] /\
  map id_and_title (records (table reingested_twice))
  = [(0%nat, "Inception"); (1%nat, "Inception"); (2%nat, "Inception")].
Proof.
  split; [vm_compute; reflexivity|]. split; [reflexivity|].
  split; [vm_compute; reflexivity|]. split; vm_compute; reflexivity.
Qed.

Lemma rerank_merge_only_sets_why_sample :
  Forall (fun x => readable_entry x = true) reason_entries /\
  exists out,
    withReason (env := silent) reasons sample_rows = Ok out /\
    length out = length sample_rows.
Proof.
  assert (H : Forall (fun x => readable_entry x = true) reason_entries)
    by (repeat constructor).
  split; [exact H|].
  destruct (rerank_merge_only_sets_why (env := silent) reason_entries sample_rows H)
    as (out & Hout & Hlen & _).
  exists out. split; [exact Hout | exact Hlen].
Defined.

Lemma duplicate_titles_share_why_sample :
  toLowerCase_ascii "Inception" = toLowerCase_ascii "INCEPTION" /\
  exists oi oj,
    nth_error sample_merged 1 = Some oi /\
    nth_error sample_merged 2 = Some oj /\
    get "why" oi = Some (JStr "dream heist") /\
    get "why" oj = get "why" oi.
Proof.
  split; [reflexivity|].
  edestruct (duplicate_titles_share_why (env := silent)
               reason_entries sample_rows sample_merged 1 2)
    as (oi & oj & Hi & Hj & Hwhy & Hsame).
  - vm_compute; reflexivity.
  - vm_compute; reflexivity.
  - vm_compute; reflexivity.
  - vm_compute; reflexivity.
  - exists oi, oj. split; [exact Hi|]. split; [exact Hj|].
    split; [exact Hwhy | exact Hsame].
Defined.

Lemma pagination_window_count_sample :
  fst (recommend (env := silent)
         (request [("topN", number 5); ("offset", number 5)]) stocked_world)
  = R200 (JObj [("topN", JArr [])]).
Proof.
  eassert (Hs : RecommendBodySchema
                  (request [("topN", number 5); ("offset", number 5)])
                = Some _) by (vm_compute; reflexivity).
  eassert (He : embed_content (Services := silent)
                  (joinAnswers (env := silent) ["mind-bending sci-fi"]) = Ok _)
    by (vm_compute; reflexivity).
  destruct (pagination_window_count (env := silent) _ _ _ stocked_world Hs
              ltac:(vm_compute; discriminate) He eq_refl)
    as (_ & _ & H).
  destruct (H eq_refl) as (cands & Hresp & Hempty).
  rewrite Hresp, Hempty; [reflexivity|].
  vm_compute; discriminate.
Defined.

Lemma returned_scores_reach_threshold_sample :
  exists resp w' cands,
    recommend (env := silent) (request [("threshold", JNum (1 # 2))]) stocked_world
    = (R200 resp, w') /\
    resp = JObj [("topN", JArr cands)] /\
    length cands = 2%nat /\
    Forall (fun c => exists s, candidate_score c = Some s /\ 1 # 2 <= s) cands.
Proof.
  eassert (H : recommend (env := silent)
                 (request [("threshold", JNum (1 # 2))]) stocked_world
               = (R200 _, _)) by (vm_compute; reflexivity).
  eassert (Hs : RecommendBodySchema (request [("threshold", JNum (1 # 2))])
                = Some _) by (vm_compute; reflexivity).
  destruct (returned_scores_reach_threshold (env := silent) _ _ _ _ _ Hs H)
    as (cands & Hresp & Hall).
  do 3 eexists. split; [exact H|]. split; [exact Hresp|].
  split; [|exact Hall].
  injection Hresp as <-. reflexivity.
Defined.

Lemma returned_scores_non_increasing_sample :
  exists resp w' cands,
    recommend (env := silent) (request []) stocked_world = (R200 resp, w') /\
    resp = JObj [("topN", JArr cands)] /\
    map candidate_score cands = [Some (78 # 100); Some (65 # 100); Some (46 # 100)] /\
    forall i j ci cj, (i <= j)%nat ->
      nth_error cands i = Some ci ->
      nth_error cands j = Some cj ->
      exists si sj,
        candidate_score ci = Some si /\ candidate_score cj = Some sj /\ sj <= si.
Proof.
  eassert (H : recommend (env := silent) (request []) stocked_world = (R200 _, _))
    by (vm_compute; reflexivity).
  destruct (returned_scores_non_increasing (env := silent) _ _ _ _ H)
    as (cands & Hresp & Hsorted).
  do 3 eexists. split; [exact H|]. split; [exact Hresp|].
  split; [|exact Hsorted].
  injection Hresp as <-. reflexivity.
Defined.

Lemma candidate_fields_follow_rerank_sample :
  exists resp w' cands,
    recommend (env := reasoned) (request [("rerank", JBool true)]) stocked_world
    = (R200 resp, w') /\
    resp = JObj [("topN", JArr cands)] /\
    length cands = 3%nat /\
    Forall (fun c => exists o,
                c = JObj o /\
                keys o = ["id"; "title"; "year"; "genres"; "plot"; "metadata";
                          "score"; "why"])
           cands.
Proof.
  eassert (H : recommend (env := reasoned)
                 (request [("rerank", JBool true)]) stocked_world
               = (R200 _, _)) by (vm_compute; reflexivity).
  eassert (Hs : RecommendBodySchema (request [("rerank", JBool true)]) = Some _)
    by (vm_compute; reflexivity).
  destruct (candidate_fields_follow_rerank (env := reasoned) _ _ _ _ _ Hs H)
    as (qvec & rows & cands & _ & Hresp & Hfields).
  do 3 eexists. split; [exact H|]. split; [exact Hresp|].
  split; [injection Hresp as <-; reflexivity|].
  apply (Forall2_Forall_r _ _ _ _ Hfields).
  intros r c (o & Hc & Hkeys & _). exists o. split; [exact Hc | exact Hkeys].
Defined.

Lemma ingest_embedding_failure_aborts_sample :
  fst (ingest_movies (env := silent) catalogue_with_overlong stocked_world)
  = R500 "Request payload size exceeds the limit" /\
  table (snd (ingest_movies (env := silent) catalogue_with_overlong stocked_world))
  = table stocked_world /\
  filter is_store_call
    (calls (snd (ingest_movies (env := silent) catalogue_with_overlong stocked_world)))
  = [].
Proof.
  eassert (Hs : IngestBodySchema catalogue_with_overlong = Some _)
    by (vm_compute; reflexivity).
  eassert (He : embed_content (Services := silent)
                  (movieTextForEmbedding (env := silent) _) = Throw _).
  2: destruct (ingest_embedding_failure_aborts (env := silent) _ _ _ _
                 stocked_world Hs (or_intror (or_introl eq_refl)) He)
      as (done & m' & e' & rest & _ & _ & Hres & Hcalls).
  - vm_compute; reflexivity.
  - split; [|split].
    + vm_compute. reflexivity.
    + rewrite Hres. reflexivity.
    + rewrite Hcalls. reflexivity.
Defined.

(** ** Further properties on the sample data *)

Lemma MovieSchema_strips_undeclared_key_sample :
  declared_movie_key "id" = false /\
  MovieSchema (JObj [("id", JStr "0"); ("title", JStr "Inception")])
  = MovieSchema (JObj [("title", JStr "Inception")]).
Proof.
  split; [reflexivity|].
  exact (MovieSchema_strips_undeclared_key "id"
           [("id", JStr "0"); ("title", JStr "Inception")] eq_refl).
Defined.

Lemma RecommendBodySchema_ranges_sample :
  exists data,
    RecommendBodySchema (request [("topN", number 5); ("offset", number 5)])
    = Some data /\
    (1 <= length (answers data) <= 10)%nat /\
    (forall n, topN data = Some n -> (1 <= n <= 50)%Z).
Proof.
  eassert (Hs : RecommendBodySchema
                  (request [("topN", number 5); ("offset", number 5)])
                = Some _) by (vm_compute; reflexivity).
  destruct (RecommendBodySchema_ranges _ _ Hs) as (Ha & Hn & _).
  eexists. split; [exact Hs|]. split; [exact Ha | exact Hn].
Defined.

Lemma recommend_rejects_answer_count_sample :
  recommend (env := silent) (JObj [("answers", JArr [])]) stocked_world
  = (R400, stocked_world).
Proof.
  exact (recommend_rejects_answer_count (env := silent)
           [("answers", JArr [])] [] stocked_world eq_refl (or_introl eq_refl)).
Defined.

Lemma recommend_rejects_topN_sample :
  recommend (env := silent) (request [("topN", JNum (5 # 2))]) stocked_world
  = (R400, stocked_world).
Proof.
  exact (recommend_rejects_topN (env := silent)
           [("answers", question); ("topN", JNum (5 # 2))] (5 # 2) stocked_world
           eq_refl (or_introl eq_refl)).
Defined.

Lemma ingest_rejects_invalid_batch_sample :
  MovieSchema untitled = None /\
  ingest_movies (env := silent) (batch [inception; untitled]) stocked_world
  = (R400, stocked_world).
Proof.
  split; [reflexivity|].
  exact (ingest_rejects_invalid_batch (env := silent)
           [("movies", JArr [inception; untitled])] [inception; untitled]
           stocked_world eq_refl
           (or_intror
              (ex_intro _ untitled (conj (or_intror (or_introl eq_refl)) eq_refl)))).
Defined.

Lemma ingest_success_sample :
  fst (ingest_movies (env := silent) catalogue empty_world)
  = R200 (JObj [ ("inserted", number 3);
                 ("ids", JArr [JStr "0"; JStr "1"; JStr "2"]) ]).
Proof.
  eassert (Hs : IngestBodySchema catalogue = Some _) by (vm_compute; reflexivity).
  rewrite (ingest_success (env := silent) catalogue _ empty_world Hs).
  - reflexivity.
  - repeat (constructor; [eexists; vm_compute; reflexivity|]). constructor.
  - reflexivity.
Defined.

Lemma ingest_store_failure_sample :
  fst (ingest_movies (env := store_down) catalogue stocked_world)
  = R500 "connection refused" /\
  table (snd (ingest_movies (env := store_down) catalogue stocked_world))
  = table stocked_world.
Proof.
  eassert (Hs : IngestBodySchema catalogue = Some _) by (vm_compute; reflexivity).
  rewrite (ingest_store_failure (env := store_down) catalogue _
             "connection refused" stocked_world Hs).
  - split; reflexivity.
  - repeat (constructor; [eexists; vm_compute; reflexivity|]). constructor.
  - reflexivity.
Defined.

Lemma ingest_keeps_unique_ids_sample :
  unique_ids (table empty_world) /\
  unique_ids (table (snd (ingest_movies (env := silent) catalogue empty_world))).
Proof.
  assert (H : unique_ids (table empty_world)) by (split; constructor).
  split; [exact H|].
  exact (ingest_keeps_unique_ids (env := silent) catalogue empty_world H).
Defined.

Lemma recommend_embedding_failure_sample :
  fst (recommend (env := silent) overlong_request stocked_world)
  = R500 "Request payload size exceeds the limit".
Proof.
  eassert (Hs : RecommendBodySchema overlong_request = Some _)
    by (vm_compute; reflexivity).
  rewrite (recommend_embedding_failure (env := silent) overlong_request _
             "Request payload size exceeds the limit" stocked_world Hs).
  - reflexivity.
  - vm_compute; reflexivity.
Defined.

Lemma recommend_store_failure_sample :
  fst (recommend (env := store_down) (request [("rerank", JBool true)]) stocked_world)
  = R500 "connection refused".
Proof.
  eassert (Hs : RecommendBodySchema (request [("rerank", JBool true)]) = Some _)
    by (vm_compute; reflexivity).
  eassert (He : embed_content (Services := store_down)
                  (joinAnswers (env := store_down) ["mind-bending sci-fi"]) = Ok _)
    by (vm_compute; reflexivity).
  rewrite (recommend_store_failure (env := store_down) _ _ _
             "connection refused" stocked_world Hs He eq_refl).
  reflexivity.
Defined.

Lemma recommend_reasoning_failure_sample :
  fst (recommend (env := silent) (request [("rerank", JBool true)]) stocked_world)
  = R500 "reasoning model unavailable".
Proof.
  eassert (Hs : RecommendBodySchema (request [("rerank", JBool true)]) = Some _)
    by (vm_compute; reflexivity).
  eassert (He : embed_content (Services := silent)
                  (joinAnswers (env := silent) ["mind-bending sci-fi"]) = Ok _)
    by (vm_compute; reflexivity).
  eassert (Hm : match_movies (env := silent) (table stocked_world)
                  [inject_Z 144] 5 (1 # 4) = Ok _)
    by (vm_compute; reflexivity).
  exact (recommend_reasoning_failure (env := silent) _ _ _ _
           "reasoning model unavailable" stocked_world Hs eq_refl He eq_refl Hm
           eq_refl).
Defined.

Lemma recommend_calls_on_success_sample :
  exists qvec prompt,
    calls (snd (recommend (env := reasoned)
                  (request [("rerank", JBool true)]) stocked_world))
    = [ CallEmbed (joinAnswers (env := reasoned) ["mind-bending sci-fi"]);
        CallMatchMovies qvec 5 (1 # 4);
        CallGenerate prompt ].
Proof.
  eassert (H : recommend (env := reasoned)
                 (request [("rerank", JBool true)]) stocked_world
               = (R200 _, _)) by (vm_compute; reflexivity).
  destruct (recommend_calls_on_success (env := reasoned) _ _ _ _ H)
    as (data & qvec & rows & Hs & _ & _ & Hcalls).
  vm_compute in Hs. injection Hs as <-.
  rewrite H. cbn [snd]. rewrite Hcalls.
  do 2 eexists. reflexivity.
Defined.

Lemma match_movies_returns_best_sample :
  exists returned omitted,
    Permutation
      (filter (where_threshold (env := silent) [inject_Z 144] (1 # 4))
         (records (table stocked_world)))
      (returned ++ omitted) /\
    forall r m, In r returned -> In m omitted ->
      similarity (env := silent) [inject_Z 144] m
      <= similarity (env := silent) [inject_Z 144] r.
Proof.
  eassert (Hm : match_movies (env := silent) (table stocked_world)
                  [inject_Z 144] 2 (1 # 4) = Ok _)
    by (vm_compute; reflexivity).
  destruct (match_movies_returns_best (env := silent) _ _ _ _ _ Hm)
    as (returned & omitted & Hperm & _ & _ & Hbest).
  exists returned, omitted. split; [exact Hperm | exact Hbest].
Defined.


Lemma match_movies_no_duplicate_sample :
  NoDup (map r_id sample_rows) /\ NoDup (map r_id (slice sample_rows 1 3)).
Proof.
  apply (match_movies_no_duplicate (env := silent) (table stocked_world)
           [inject_Z 144] 5 (1 # 4) sample_rows 1 3).
  - vm_compute.
    repeat (constructor;
            [intros H; repeat (destruct H as [H|H]; [discriminate H|]); exact H|]).
    constructor.
  - vm_compute; reflexivity.
Defined.

Lemma recommend_rerank_success_sample :
  exists cands,
    fst (recommend (env := reasoned) (request [("rerank", JBool true)]) stocked_world)
    = R200 (JObj [("topN", JArr cands)]) /\
    map (fun c => match c with JObj o => get "why" o | _ => None end) cands
    = [Some JNull; Some (JStr "dream heist"); Some (JStr "dream heist")].
Proof.
  eassert (Hs : RecommendBodySchema (request [("rerank", JBool true)]) = Some _)
    by (vm_compute; reflexivity).
  eassert (He : embed_content (Services := reasoned)
                  (joinAnswers (env := reasoned) ["mind-bending sci-fi"]) = Ok _)
    by (vm_compute; reflexivity).
  eassert (Hm : match_movies (env := reasoned) (table stocked_world)
                  [inject_Z 144] 5 (1 # 4) = Ok _)
    by (vm_compute; reflexivity).
  eassert (Hj : JSON_parse_reference
                  (JSON_stringify Number_toString_integral reasons)
                = Some (JArr reason_entries)) by (vm_compute; reflexivity).
  rewrite (recommend_rerank_success (env := reasoned) _ _ _ _ _ reason_entries
             stocked_world Hs eq_refl He eq_refl Hm eq_refl Hj
             ltac:(repeat constructor)).
  eexists. split; [reflexivity|]. vm_compute. reflexivity.
Defined.

Lemma unparsable_answer_degrades_sample :
  exists cands,
    fst (recommend (env := chatty) (request [("rerank", JBool true)]) stocked_world)
    = R200 (JObj [("topN", JArr cands)]) /\
    map (fun c => match c with JObj o => get "why" o | _ => None end) cands
    = [Some JNull; Some JNull; Some JNull].
Proof.
  eassert (Hs : RecommendBodySchema (request [("rerank", JBool true)]) = Some _)
    by (vm_compute; reflexivity).
  eassert (He : embed_content (Services := chatty)
                  (joinAnswers (env := chatty) ["mind-bending sci-fi"]) = Ok _)
    by (vm_compute; reflexivity).
  eassert (Hm : match_movies (env := chatty) (table stocked_world)
                  [inject_Z 144] 5 (1 # 4) = Ok _)
    by (vm_compute; reflexivity).
  rewrite (unparsable_answer_degrades (env := chatty) _ _ _ _
             "Sorry, I cannot rank these." stocked_world Hs eq_refl He eq_refl Hm
             eq_refl ltac:(vm_compute; reflexivity)).
  eexists. split; [reflexivity|]. vm_compute. reflexivity.
Defined.

Lemma MovieSchema_defaults_sample :
  exists m,
    MovieSchema (JObj [("title", JStr "Inception")]) = Some m /\
    m_genres m = [] /\ m_metadata m = [].
Proof.
  eassert (Hs : MovieSchema (JObj [("title", JStr "Inception")]) = Some _)
    by reflexivity.
  destruct (MovieSchema_defaults _ _ Hs) as (_ & _ & Hg & _ & _ & Hm & _).
  eexists. split; [exact Hs|]. split; [exact (Hg eq_refl) | exact (Hm eq_refl)].
Defined.
